(** * migrate_db.py: the WorkBot database migration script

    A shallow embedding of [src/migrate_db.py] and the properties of its
    specification.

    The script is glue code over two libraries, [os] and [sqlite3].  Its own
    control flow (the existence check, [try]/[except]/[finally], the loop over
    the migration commands, the classification of errors) is embedded as
    written, over an interface [Platform] of the library calls it makes, so
    that the control-flow properties hold whatever the libraries do.  The
    properties that depend on what the SQL statements mean are proved over
    [Lite], a model of the SQLite engine for the statement forms that occur
    in the script. *)

From Stdlib Require Import String Ascii List ZArith Lia Bool Arith.
From Stdlib Require Import DecimalString.
Import ListNotations.
Open Scope string_scope.

(** ** Python strings *)

Module Str.

Definition nl : string := String (ascii_of_nat 10) "".

(** [str.isspace] on the ASCII range: TAB, LF, VT, FF, CR, FS, GS, RS, US
    and the space. *)
Definition is_space (c : ascii) : bool :=
  let n := nat_of_ascii c in
  (((9 <=? n) && (n <=? 13)) || ((28 <=? n) && (n <=? 32)))%nat.

Definition lower_char (c : ascii) : ascii :=
  let n := nat_of_ascii c in
  if ((65 <=? n) && (n <=? 90))%nat then ascii_of_nat (n + 32) else c.

Fixpoint ascii_lower (s : string) : string :=
  match s with
  | EmptyString => EmptyString
  | String c r => String (lower_char c) (ascii_lower r)
  end.

Fixpoint is_ascii (s : string) : bool :=
  match s with
  | EmptyString => true
  | String c r => (nat_of_ascii c <? 128)%nat && is_ascii r
  end.

Fixpoint rev (s : string) : string :=
  match s with
  | EmptyString => EmptyString
  | String c r => rev r ++ String c EmptyString
  end.

Fixpoint lstrip (s : string) : string :=
  match s with
  | EmptyString => EmptyString
  | String c r => if is_space c then lstrip r else s
  end.

Definition ascii_strip (s : string) : string := rev (lstrip (rev (lstrip s))).

(** [needle in s] *)
Fixpoint contains (needle s : string) : bool :=
  prefix needle s ||
  match s with
  | EmptyString => false
  | String _ r => contains needle r
  end.

(** [s.endswith(suffix)] *)
Definition endswith (suffix s : string) : bool := prefix (rev suffix) (rev s).

(** [s.split()]: the maximal runs of non-whitespace characters.  [cur] is
    the run being read, in reverse. *)
Fixpoint split_from (cur : string) (s : string) : list string :=
  match s with
  | EmptyString => if (cur =? "")%string then [] else [rev cur]
  | String c r =>
      if is_space c
      then (if (cur =? "")%string then split_from "" r
            else rev cur :: split_from "" r)
      else split_from (String c cur) r
  end.

Definition split (s : string) : list string := split_from "" s.

(** [sep.join(l)] *)
Definition join (sep : string) (l : list string) : string := String.concat sep l.

(** [c * n] for a one-character string *)
Fixpoint times (s : string) (n : nat) : string :=
  match n with
  | O => ""
  | S k => s ++ times s k
  end.

Definition of_nat (n : nat) : string := NilZero.string_of_uint (Nat.to_uint n).
Definition of_Z (z : Z) : string := NilZero.string_of_int (Z.to_int z).

End Str.

(** [str.lower] and [str.strip] are Unicode-aware in Python.  The script only
    relies on what they do to ASCII text, which is what the class records;
    [ascii_str] is the instance used to run the model. *)
Class PyStr := {
  str_lower : string -> string;
  str_strip : string -> string;
  str_lower_ascii : forall s, Str.is_ascii s = true -> str_lower s = Str.ascii_lower s
}.

#[export] Instance ascii_str : PyStr := {|
  str_lower := Str.ascii_lower;
  str_strip := Str.ascii_strip;
  str_lower_ascii := fun s _ => eq_refl
|}.

(** ** Values, exceptions, completions *)

(** The Python images of SQLite's NULL, INTEGER and TEXT values; REAL and BLOB
    values play no part in the script. *)
Inductive value :=
| VNull
| VInt (z : Z)
| VText (s : string).

Definition row := list value.

(** [str(v)], as an f-string formats it *)
Definition str_value (v : value) : string :=
  match v with
  | VNull => "None"
  | VInt z => Str.of_Z z
  | VText s => s
  end.

(** The exception classes the script can meet.  All of them derive from
    [Exception]; [OperationalError] and [OtherSqliteError] derive from
    [sqlite3.Error]. *)
Inductive exn_class :=
| OperationalError
| OtherSqliteError
| UnboundLocalError
| IndexError
| TypeError
| OtherException.

Record exn := mkExn { exn_cls : exn_class; exn_msg : string }.

Definition is_OperationalError (e : exn) : bool :=
  match exn_cls e with OperationalError => true | _ => false end.

Definition is_sqlite3_Error (e : exn) : bool :=
  match exn_cls e with OperationalError | OtherSqliteError => true | _ => false end.

Definition is_Exception (e : exn) : bool := true.

(** How a block of statements ends: it falls through with a value, it executes
    [return b], or it raises. *)
Inductive completion (A : Type) :=
| Normal (a : A)
| Return (b : bool)
| Raise (e : exn).
Arguments Normal {A} a.
Arguments Return {A} b.
Arguments Raise {A} e.

(** ** The library calls, and the state of a run *)

(** [W] is the world outside the process (the file system and the database
    engine), [C] the type of connection objects.  A call that raises may
    still have changed the world. *)
Class Platform (W C : Type) := {
  os_path_exists : string -> W -> bool;
  os_getcwd : W -> string;
  os_listdir : string -> W -> list string;
  sqlite3_connect : string -> W -> (exn + C) * W;
  cursor_execute : C -> string -> W -> (exn + list row) * W;
  conn_commit : C -> W -> (exn + unit) * W;
  conn_close : C -> W -> W
}.

(** The library calls a run makes; [ok] tells whether the call returned rather
    than raised. *)
Inductive call :=
| CExists (path : string)
| CGetcwd
| CListdir (path : string)
| CConnect (path : string) (ok : bool)
| CExecute (sql : string) (ok : bool)
| CCommit (ok : bool)
| CClose.

(** What a run does that can be observed from outside, in order: the lines it
    prints and the library calls it makes.  The trace is written, never read:
    the script cannot depend on it. *)
Inductive event :=
| Print (s : string)
| Call (c : call).

Definition trace := list event.

Fixpoint stdout (t : trace) : list string :=
  match t with
  | [] => []
  | Print s :: t' => s :: stdout t'
  | Call _ :: t' => stdout t'
  end.

Fixpoint calls (t : trace) : list call :=
  match t with
  | [] => []
  | Print _ :: t' => calls t'
  | Call c :: t' => c :: calls t'
  end.

(** The state a statement runs in: the world, and the local variable [conn]
    of [migrate_database] ([None] when it is unbound). *)
Record state (W C : Type) := mkState {
  world : W;
  conn : option C
}.
Arguments mkState {W C}.
Arguments world {W C}.
Arguments conn {W C}.

(** ** Statements as state transformers *)

Section Script.

Context {PS : PyStr} {W C : Type} {P : Platform W C}.

Definition action (A : Type) : Type :=
  state W C -> completion A * state W C * trace.

Definition ret {A} (a : A) : action A := fun st => (Normal a, st, []).

Definition bind {A B} (m : action A) (k : A -> action B) : action B :=
  fun st =>
    match m st with
    | (Normal a, st1, t1) =>
        match k a st1 with
        | (r, st2, t2) => (r, st2, (t1 ++ t2)%list)
        end
    | (Return b, st1, t1) => (Return b, st1, t1)
    | (Raise e, st1, t1) => (Raise e, st1, t1)
    end.

Notation "x <- m ;; k" := (bind m (fun x => k))
  (at level 61, m at next level, right associativity).
Notation "m ;; k" := (bind m (fun _ => k))
  (at level 61, right associativity).

Definition return_ {A} (b : bool) : action A := fun st => (Return b, st, []).
Definition raise {A} (e : exn) : action A := fun st => (Raise e, st, []).

Definition print (s : string) : action unit := fun st => (Normal tt, st, [Print s]).

Definition log (c : call) : action unit := fun st => (Normal tt, st, [Call c]).

Definition set_world (w : W) : action unit :=
  fun st => (Normal tt, mkState w (conn st), []).

Definition get_world : action W := fun st => (Normal (world st), st, []).

(** [conn = c] *)
Definition assign_conn (c : C) : action unit :=
  fun st => (Normal tt, mkState (world st) (Some c), []).

(** Reading the local [conn]: an unbound local raises [UnboundLocalError]. *)
Definition read_conn : action C :=
  fun st =>
    match conn st with
    | Some c => (Normal c, st, [])
    | None =>
        (Raise (mkExn UnboundLocalError
           "cannot access local variable 'conn' where it is not associated with a value"),
         st, [])
    end.

(** An [except] clause: the test on the class, and the handler. *)
Definition clause (A : Type) : Type := (exn -> bool) * (exn -> action A).

Fixpoint handle {A} (cs : list (clause A)) (e : exn) : action A :=
  match cs with
  | [] => raise e
  | (test, handler) :: cs' => if test e then handler e else handle cs' e
  end.

(** [try: body  except ...: ...]: the first clause whose class matches handles
    the exception; an exception raised by a handler is not handled here. *)
Definition try_except {A} (body : action A) (cs : list (clause A)) : action A :=
  fun st =>
    match body st with
    | (Raise e, st1, t1) =>
        match handle cs e st1 with
        | (r, st2, t2) => (r, st2, (t1 ++ t2)%list)
        end
    | r => r
    end.

(** [try: body  finally: fin]: [fin] runs however [body] ends, and overrides
    its completion when it returns or raises itself. *)
Definition try_finally {A} (body : action A) (fin : action unit) : action A :=
  fun st =>
    match body st with
    | (r, st1, t1) =>
        match fin st1 with
        | (Normal _, st2, t2) => (r, st2, (t1 ++ t2)%list)
        | (Return b, st2, t2) => (Return b, st2, (t1 ++ t2)%list)
        | (Raise e, st2, t2) => (Raise e, st2, (t1 ++ t2)%list)
        end
    end.

(** [for x in xs: body x] *)
Fixpoint for_each {X} (xs : list X) (body : X -> action unit) : action unit :=
  match xs with
  | [] => ret tt
  | x :: xs' => body x ;; for_each xs' body
  end.

(** [enumerate(xs, i)] *)
Fixpoint enumerate {X} (i : nat) (xs : list X) : list (nat * X) :=
  match xs with
  | [] => []
  | x :: xs' => (i, x) :: enumerate (S i) xs'
  end.

(** [t[i]] on a tuple or a list *)
Definition index {X} (what : string) (xs : list X) (i : nat) : action X :=
  match nth_error xs i with
  | Some x => ret x
  | None => raise (mkExn IndexError (what ++ " index out of range"))
  end.

(** *** The library calls, logged *)

Definition path_exists (path : string) : action bool :=
  log (CExists path) ;;
  w <- get_world ;;
  ret (os_path_exists path w).

Definition getcwd : action string :=
  log CGetcwd ;;
  w <- get_world ;;
  ret (os_getcwd w).

Definition listdir (path : string) : action (list string) :=
  log (CListdir path) ;;
  w <- get_world ;;
  ret (os_listdir path w).

Definition connect (path : string) : action C :=
  w <- get_world ;;
  match sqlite3_connect path w with
  | (inr c, w') => set_world w' ;; log (CConnect path true) ;; ret c
  | (inl e, w') => set_world w' ;; log (CConnect path false) ;; raise e
  end.

Definition execute (cursor : C) (sql : string) : action (list row) :=
  w <- get_world ;;
  match cursor_execute cursor sql w with
  | (inr rows, w') => set_world w' ;; log (CExecute sql true) ;; ret rows
  | (inl e, w') => set_world w' ;; log (CExecute sql false) ;; raise e
  end.

Definition commit (c : C) : action unit :=
  w <- get_world ;;
  match conn_commit c w with
  | (inr _, w') => set_world w' ;; log (CCommit true)
  | (inl e, w') => set_world w' ;; log (CCommit false) ;; raise e
  end.

Definition close (c : C) : action unit :=
  w <- get_world ;;
  set_world (conn_close c w) ;;
  log CClose.

(** [cursor.fetchall()] and [cursor.fetchone()] on the rows of the statement
    the cursor has just executed. *)
Definition fetchall (rows : list row) : list row := rows.

Definition fetchone (rows : list row) : option row := hd_error rows.

(** [r[i]] where [r] is what [fetchone] returned: [None] is not
    subscriptable. *)
Definition subscript (r : option row) (i : nat) : action value :=
  match r with
  | None => raise (mkExn TypeError "'NoneType' object is not subscriptable")
  | Some t => index "tuple" t i
  end.

(** [v > 0] for a value read from the database *)
Definition gt_zero (v : value) : action bool :=
  match v with
  | VInt z => ret (0 <? z)%Z
  | VNull =>
      raise (mkExn TypeError "'>' not supported between instances of 'NoneType' and 'int'")
  | VText _ =>
      raise (mkExn TypeError "'>' not supported between instances of 'str' and 'int'")
  end.

(** ** The script *)

Definition db_path : string := "workbot.db".

Definition migration_commands : list string :=
  [ "ALTER TABLE Users ADD COLUMN DisplayName TEXT NULL;";
    "ALTER TABLE Users ADD COLUMN ExternalId TEXT NULL;";
    "ALTER TABLE Users ADD COLUMN EmployeeId TEXT NULL;";
    "ALTER TABLE Users ADD COLUMN AuthenticationMethod TEXT NOT NULL DEFAULT 'Local';";
    "CREATE INDEX IF NOT EXISTS IX_Users_ExternalId ON Users (ExternalId);";
    "CREATE INDEX IF NOT EXISTS IX_Users_EmployeeId ON Users (EmployeeId);";
    "CREATE INDEX IF NOT EXISTS IX_Users_AuthenticationMethod ON Users (AuthenticationMethod);";
    "UPDATE Users SET AuthenticationMethod = 'Local' WHERE AuthenticationMethod IS NULL OR AuthenticationMethod = '';" ].

(** ["duplicate column name" in str(e).lower()] *)
Definition is_duplicate_column (e : exn) : bool :=
  Str.contains "duplicate column name" (str_lower (exn_msg e)).

Definition step_label (mark : string) (i : nat) : string :=
  mark ++ " Step " ++ Str.of_nat i ++ "/8: ".

(** The body of the loop over the commands (lines 36-47). *)
Definition run_step (cursor : C) (i : nat) (command : string) : action unit :=
  try_except
    (execute cursor command ;;
     verb <- index "list" (Str.split command) 0 ;;
     print (step_label "✓" i ++ verb ++ " command executed successfully"))
    [ (is_OperationalError, fun e =>
         if is_duplicate_column e
         then print (step_label "⚠" i ++ "Column already exists, skipping: " ++ command)
         else (print (step_label "✗" i ++ "Error executing command: " ++ exn_msg e) ;;
               return_ false));
      (is_Exception, fun e =>
         print (step_label "✗" i ++ "Unexpected error: " ++ exn_msg e) ;;
         return_ false) ].

Definition run_steps (cursor : C) (commands : list (nat * string)) : action unit :=
  for_each commands (fun ic => run_step cursor (fst ic) (snd ic)).

(** The verification summary (lines 53-71). *)
Definition verify (cursor : C) : action unit :=
  rows <- execute cursor "PRAGMA table_info(Users);" ;;
  let columns := fetchall rows in
  print (Str.nl ++ "Updated Users table structure:") ;;
  for_each columns (fun column =>
    name <- index "tuple" column 1 ;;
    type <- index "tuple" column 2 ;;
    print ("  - " ++ str_value name ++ " (" ++ str_value type ++ ")")) ;;
  rows <- execute cursor "SELECT COUNT(*) FROM Users;" ;;
  user_count <- subscript (fetchone rows) 0 ;;
  print (Str.nl ++ "Total users in database: " ++ str_value user_count) ;;
  some <- gt_zero user_count ;;
  if some : bool
  then
    rows <- execute cursor "SELECT Username, AuthenticationMethod FROM Users LIMIT 5;" ;;
    let sample_users := fetchall rows in
    print (Str.nl ++ "Sample user authentication methods:") ;;
    for_each sample_users (fun user =>
      name <- index "tuple" user 0 ;;
      method <- index "tuple" user 1 ;;
      print ("  - " ++ str_value name ++ ": " ++ str_value method))
  else ret tt.

(** The [try] block (lines 15-73).  The cursor made by [conn.cursor()] is
    identified with its connection. *)
Definition try_block : action unit :=
  c <- connect db_path ;;
  assign_conn c ;;
  let cursor := c in
  print "Connected to workbot.db successfully!" ;;
  print "Running migration..." ;;
  run_steps cursor (enumerate 1 migration_commands) ;;
  commit c ;;
  print (Str.nl ++ "✓ All migration steps completed successfully!") ;;
  verify cursor ;;
  return_ true.

(** The [finally] block (lines 82-84); a connection object is truthy. *)
Definition finally_block : action unit :=
  c <- read_conn ;;
  close c ;;
  print (Str.nl ++ "Database connection closed.").

(** Entering the function: its locals are unbound. *)
Definition enter : action unit :=
  fun st => (Normal tt, mkState (world st) None, []).

Definition migrate_database : action unit :=
  enter ;;
  found <- path_exists db_path ;;
  if negb found
  then
    print ("Error: Database file '" ++ db_path ++ "' not found!") ;;
    print "Make sure you're running this script from your project directory." ;;
    return_ false
  else
    try_finally
      (try_except try_block
         [ (is_sqlite3_Error, fun e =>
              print ("Database error: " ++ exn_msg e) ;; return_ false);
           (is_Exception, fun e =>
              print ("Unexpected error: " ++ exn_msg e) ;; return_ false) ])
      finally_block.

(** A call [f()] seen from the caller: [return b] yields [b], falling off the
    end yields [None], an exception propagates. *)
Definition call_function (f : action unit) : action (option bool) :=
  fun st =>
    match f st with
    | (Normal _, st', t) => (Normal None, st', t)
    | (Return b, st', t) => (Normal (Some b), st', t)
    | (Raise e, st', t) => (Raise e, st', t)
    end.

(** [input(prompt)]: the prompt is written, [line] is what the user types. *)
Definition input (prompt line : string) : action string :=
  print prompt ;; ret line.

Definition confirmed (response : string) : bool :=
  (response =? "y")%string || (response =? "yes")%string.

(** What precedes the confirmation (lines 87-103). *)
Definition banner : action unit :=
  print "WorkBot Database Migration Script" ;;
  print (Str.times "=" 40) ;;
  print "This script will add Identity Server fields to the Users table." ;;
  print "" ;;
  current_dir <- getcwd ;;
  print ("Current directory: " ++ current_dir) ;;
  names <- listdir "." ;;
  let db_files := filter (Str.endswith ".db") names in
  (match db_files with
   | _ :: _ => print ("Found database files: " ++ Str.join ", " db_files)
   | [] => print "No .db files found in current directory."
   end) ;;
  print "".

(** The module body under [if __name__ == "__main__"]. *)
Definition main (line : string) : action unit :=
  banner ;;
  answer <- input "Do you want to proceed with the migration? (y/N): " line ;;
  let response := str_lower (str_strip answer) in
  if confirmed response
  then
    success <- call_function migrate_database ;;
    match success with
    | Some true =>
        print (Str.nl ++ "🎉 Migration completed successfully!") ;;
        print "You can now continue with the Identity Server setup."
    | _ => print (Str.nl ++ "❌ Migration failed. Please check the errors above.")
    end
  else print "Migration cancelled.".

End Script.

(** ** A model of the SQLite engine

    [Lite] models what [sqlite3] does for the statements of the script:
    [ALTER TABLE .. ADD COLUMN], [CREATE INDEX IF NOT EXISTS], [UPDATE .. SET
    .. WHERE], [PRAGMA table_info], [SELECT COUNT( * )] and [SELECT .. LIMIT],
    on databases made of tables, indexes and UPDATE triggers (no views, no
    constraints other than NOT NULL; foreign keys are not enforced, as on a
    connection that has not switched them on).  A column has a collating
    sequence, a table has at most [max_columns] columns, and a trigger
    changes rows, of its own table or of another.  The statements are read
    from the very strings the script passes to [cursor.execute]. *)

Module Lite.

(** *** Schema and data *)

(** The collating sequences of SQLite: a text comparison with a column uses
    the one the column was declared with. *)
Inductive collation := Binary | NoCase | RTrim.

Record column := mkColumn {
  col_name : string;
  col_type : string;
  col_notnull : bool;
  col_dflt : option string;   (* the text of the DEFAULT expression *)
  col_pk : Z;
  col_collate : collation
}.

Record table := mkTable {
  tbl_name : string;
  tbl_cols : list column;
  tbl_rows : list row
}.

Record index := mkIndex {
  ix_name : string;
  ix_table : string;
  ix_cols : list string
}.

(** [BEFORE] and [AFTER] triggers of [UPDATE]. *)
Inductive timing := Before | After.

(** A trigger [trg_timing UPDATE OF trg_of ON trg_table FOR EACH ROW]; an
    empty [trg_of] is an [UPDATE] of any column.  The statements of a trigger
    insert, update or delete rows: [trg_body old new rows] is what they do
    when they run for a row changed from [old] to [new], where [rows] gives
    the rows of every table: either they raise, or they give new rows to the
    tables they name. *)
Record trigger := mkTrigger {
  trg_name : string;
  trg_table : string;
  trg_timing : timing;
  trg_of : list string;
  trg_body : row -> row -> (string -> list row) -> exn + list (string * list row)
}.

Record database := mkDatabase {
  db_tables : list table;
  db_indexes : list index;
  db_triggers : list trigger
}.

Definition empty_db : database := mkDatabase [] [] [].

(** SQLITE_MAX_COLUMN, as the library is built. *)
Definition max_columns : nat := 2000.

(** Identifiers are compared without regard to ASCII case. *)
Definition same_name (a b : string) : bool :=
  (Str.ascii_lower a =? Str.ascii_lower b)%string.

Fixpoint find_table (name : string) (ts : list table) : option table :=
  match ts with
  | [] => None
  | t :: ts' => if same_name (tbl_name t) name then Some t else find_table name ts'
  end.

Fixpoint update_table (name : string) (f : table -> table) (ts : list table)
  : list table :=
  match ts with
  | [] => []
  | t :: ts' =>
      if same_name (tbl_name t) name then f t :: ts'
      else t :: update_table name f ts'
  end.

Fixpoint col_index (name : string) (cs : list column) : option nat :=
  match cs with
  | [] => None
  | c :: cs' =>
      if same_name (col_name c) name then Some 0
      else option_map S (col_index name cs')
  end.

Definition has_index (name : string) (ixs : list index) : bool :=
  existsb (fun ix => same_name (ix_name ix) name) ixs.

(** The value of a row in the column at position [i]. *)
Definition cell (r : row) (i : nat) : value := nth i r VNull.

Fixpoint set_cell (r : row) (i : nat) (v : value) : row :=
  match r, i with
  | [], _ => []
  | _ :: r', O => v :: r'
  | x :: r', S j => x :: set_cell r' j v
  end.

(** *** Statements *)

Inductive cond :=
| IsNull (col : string)
| EqText (col : string) (lit : string)
| Or (a b : cond).

Inductive stmt :=
| AlterAddColumn (tbl col type : string) (notnull : bool) (dflt : option string)
| CreateIndexIfNotExists (name tbl col : string)
| Update (tbl col : string) (lit : string) (where_ : cond)
| PragmaTableInfo (tbl : string)
| SelectCount (tbl : string)
| SelectLimit (cols : list string) (tbl : string) (limit : nat).


(** *** Reading a statement from its text *)

Inductive token :=
| TWord (s : string)
| TText (s : string)     (* a quoted literal, without its quotes *)
| TSym (c : ascii).

Definition is_sym (c : ascii) : bool :=
  match c with
  | "("%char | ")"%char | ","%char | ";"%char | "="%char | "*"%char => true
  | _ => false
  end.

Definition flush (cur : string) (ts : list token) : list token :=
  if (cur =? "")%string then ts else TWord (Str.rev cur) :: ts.

(** [cur] is the word being read, in reverse; [quoted] the literal being
    read, in reverse, when the reader is inside quotes.  An unterminated
    literal is an error. *)
Fixpoint lex (cur : string) (quoted : option string) (s : string)
  : option (list token) :=
  match s with
  | EmptyString =>
      match quoted with
      | Some _ => None
      | None => Some (flush cur [])
      end
  | String c r =>
      match quoted with
      | Some q =>
          if (c =? "'")%char
          then option_map (cons (TText (Str.rev q))) (lex "" None r)
          else lex cur (Some (String c q)) r
      | None =>
          if (c =? "'")%char then option_map (flush cur) (lex "" (Some "") r)
          else if Str.is_space c then option_map (flush cur) (lex "" None r)
          else if is_sym c
               then option_map (fun ts => flush cur (TSym c :: ts)) (lex "" None r)
               else lex (String c cur) None r
      end
  end.

Definition kw (k : string) (t : token) : bool :=
  match t with
  | TWord w => (Str.ascii_lower w =? k)%string
  | _ => false
  end.

Definition sym (c : ascii) (t : token) : bool :=
  match t with
  | TSym c' => (c' =? c)%char
  | _ => false
  end.

Fixpoint kws (ks : list string) (ts : list token) : bool :=
  match ks, ts with
  | [], [] => true
  | k :: ks', t :: ts' => kw k t && kws ks' ts'
  | _, _ => false
  end.

(** An optional final semicolon. *)
Definition at_end (ts : list token) : bool :=
  match ts with
  | [] => true
  | [t] => sym ";" t
  | _ => false
  end.

Fixpoint number (acc : nat) (s : string) : option nat :=
  match s with
  | EmptyString => Some acc
  | String c r =>
      let n := nat_of_ascii c in
      if ((48 <=? n) && (n <=? 57))%nat then number (10 * acc + (n - 48)) r
      else None
  end.

(** [NULL], or [NOT NULL], then possibly [DEFAULT 'text'] *)
Definition parse_constraints (ts : list token) : option (bool * option string) :=
  let nullness :=
    match ts with
    | n :: rest => if kw "null" n then (false, rest) else
        match rest with
        | n' :: rest' => if kw "not" n && kw "null" n' then (true, rest') else (false, ts)
        | [] => (false, ts)
        end
    | [] => (false, ts)
    end in
  match snd nullness with
  | d :: TText lit :: rest =>
      if kw "default" d && at_end rest then Some (fst nullness, Some lit) else None
  | rest => if at_end rest then Some (fst nullness, None) else None
  end.

(** [col IS NULL] and [col = 'text'], joined by [OR] *)
Fixpoint parse_cond (fuel : nat) (ts : list token) : option cond :=
  match fuel with
  | O => None
  | S fuel' =>
      let atom :=
        match ts with
        | TWord c :: i :: n :: rest =>
            if kw "is" i && kw "null" n then Some (IsNull c, rest) else
            match i, n with
            | TSym "="%char, TText lit => Some (EqText c lit, rest)
            | _, _ => None
            end
        | _ => None
        end in
      match atom with
      | None => None
      | Some (a, rest) =>
          match rest with
          | o :: rest' =>
              if kw "or" o
              then option_map (Or a) (parse_cond fuel' rest')
              else if at_end rest then Some a else None
          | [] => Some a
          end
      end
  end.

Fixpoint parse_columns (fuel : nat) (ts : list token)
  : option (list string * list token) :=
  match fuel with
  | O => None
  | S fuel' =>
      match ts with
      | TWord c :: TSym ","%char :: rest =>
          match parse_columns fuel' rest with
          | Some (cs, rest') => Some (c :: cs, rest')
          | None => None
          end
      | TWord c :: rest => Some ([c], rest)
      | _ => None
      end
  end.

Definition parse_alter (ts : list token) : option stmt :=
  match ts with
  | a :: t :: TWord tbl :: ad :: cl :: TWord col :: TWord ty :: rest =>
      if kws ["alter"; "table"] [a; t] && kws ["add"; "column"] [ad; cl]
      then match parse_constraints rest with
           | Some (notnull, dflt) => Some (AlterAddColumn tbl col ty notnull dflt)
           | None => None
           end
      else None
  | _ => None
  end.

Definition parse_create_index (ts : list token) : option stmt :=
  match ts with
  | c :: i :: f :: n :: e :: TWord name :: o :: TWord tbl :: l :: TWord col :: r
      :: rest =>
      if kws ["create"; "index"; "if"; "not"; "exists"] [c; i; f; n; e]
         && kw "on" o && sym "(" l && sym ")" r && at_end rest
      then Some (CreateIndexIfNotExists name tbl col)
      else None
  | _ => None
  end.

Definition parse_update (ts : list token) : option stmt :=
  match ts with
  | u :: TWord tbl :: s :: TWord col :: e :: TText lit :: w :: rest =>
      if kw "update" u && kw "set" s && sym "=" e && kw "where" w
      then option_map (Update tbl col lit) (parse_cond (List.length rest) rest)
      else None
  | _ => None
  end.

Definition parse_pragma (ts : list token) : option stmt :=
  match ts with
  | p :: f :: l :: TWord tbl :: r :: rest =>
      if kws ["pragma"; "table_info"] [p; f] && sym "(" l && sym ")" r && at_end rest
      then Some (PragmaTableInfo tbl)
      else None
  | _ => None
  end.

Definition parse_select (ts : list token) : option stmt :=
  match ts with
  | s :: c :: l :: a :: r :: f :: TWord tbl :: rest =>
      if kws ["select"; "count"] [s; c] && sym "(" l && sym "*" a && sym ")" r
         && kw "from" f && at_end rest
      then Some (SelectCount tbl)
      else None
  | _ => None
  end.

Definition parse_select_limit (ts : list token) : option stmt :=
  match ts with
  | s :: rest =>
      match parse_columns (List.length rest) rest with
      | Some (cols, f :: TWord tbl :: l :: TWord n :: rest') =>
          if kw "select" s && kw "from" f && kw "limit" l && at_end rest'
          then option_map (SelectLimit cols tbl) (number 0 n)
          else None
      | _ => None
      end
  | [] => None
  end.

Definition parse_tokens (ts : list token) : option stmt :=
  match ts with
  | t :: _ =>
      if kw "alter" t then parse_alter ts
      else if kw "create" t then parse_create_index ts
      else if kw "update" t then parse_update ts
      else if kw "pragma" t then parse_pragma ts
      else match parse_select ts with
           | Some s => Some s
           | None => parse_select_limit ts
           end
  | [] => None
  end.

Definition parse (sql : string) : option stmt :=
  match lex "" None sql with
  | Some ts => parse_tokens ts
  | None => None
  end.

(** *** What a statement does *)

Definition op_error (msg : string) : exn := mkExn OperationalError msg.

Definition quote (s : string) : string := "'" ++ s ++ "'".

(** A new column is appended, and every row gets its default. *)
Definition add_column (c : column) (v : value) (t : table) : table :=
  mkTable (tbl_name t) (tbl_cols t ++ [c]) (map (fun r => (r ++ [v])%list) (tbl_rows t)).

Fixpoint cond_columns (c : cond) : list string :=
  match c with
  | IsNull col => [col]
  | EqText col _ => [col]
  | Or a b => (cond_columns a ++ cond_columns b)%list
  end.

(** The first of [names] that is not a column of the table. *)
Fixpoint missing_column (cs : list column) (names : list string) : option string :=
  match names with
  | [] => None
  | n :: names' =>
      match col_index n cs with
      | None => Some n
      | Some _ => missing_column cs names'
      end
  end.

(** [RTRIM] compares without regard to trailing spaces. *)
Fixpoint rtrim (s : string) : string :=
  match s with
  | EmptyString => EmptyString
  | String c s' =>
      match rtrim s' with
      | EmptyString => if (c =? " ")%char then EmptyString else String c EmptyString
      | r => String c r
      end
  end.

Definition equal_under (k : collation) (a b : string) : bool :=
  match k with
  | Binary => (a =? b)%string
  | NoCase => (Str.ascii_lower a =? Str.ascii_lower b)%string
  | RTrim => (rtrim a =? rtrim b)%string
  end.

(** The collating sequence of the column at position [i]. *)
Definition collation_at (cs : list column) (i : nat) : collation :=
  match nth_error cs i with
  | Some c => col_collate c
  | None => Binary
  end.

(** SQL's three-valued logic: [None] is unknown. *)
Fixpoint eval (cs : list column) (r : row) (c : cond) : option bool :=
  match c with
  | IsNull col =>
      match col_index col cs with
      | Some i => match cell r i with VNull => Some true | _ => Some false end
      | None => None
      end
  | EqText col lit =>
      match col_index col cs with
      | Some i =>
          match cell r i with
          | VNull => None
          | VText s => Some (equal_under (collation_at cs i) s lit)
          | VInt _ => Some false
          end
      | None => None
      end
  | Or a b =>
      match eval cs r a, eval cs r b with
      | Some true, _ | _, Some true => Some true
      | Some false, Some false => Some false
      | _, _ => None
      end
  end.

(** A row is selected by [WHERE c] when [c] is true of it. *)
Definition selected (cs : list column) (c : cond) (r : row) : bool :=
  match eval cs r c with
  | Some true => true
  | _ => false
  end.

Definition update_rows (i : nat) (v : value) (c : cond) (t : table) : table :=
  mkTable (tbl_name t) (tbl_cols t)
    (map (fun r => if selected (tbl_cols t) c r then set_cell r i v else r) (tbl_rows t)).

(** *** Triggers *)

(** The triggers that fire when [UPDATE tbl SET col = ..] changes a row. *)
Definition fires (tbl col : string) (g : trigger) : bool :=
  same_name (trg_table g) tbl &&
  match trg_of g with
  | [] => true
  | cols => existsb (same_name col) cols
  end.

Definition is_before (g : trigger) : bool :=
  match trg_timing g with Before => true | After => false end.

Definition is_after (g : trigger) : bool :=
  match trg_timing g with Before => false | After => true end.

Definition rows_of (ts : list table) (name : string) : list row :=
  match find_table name ts with
  | Some t => tbl_rows t
  | None => []
  end.

Definition with_rows (rows : list row) (t : table) : table :=
  mkTable (tbl_name t) (tbl_cols t) rows.

(** A trigger changes rows and nothing else: the tables keep their columns. *)
Definition assign (ts : list table) (a : string * list row) : list table :=
  update_table (fst a) (with_rows (snd a)) ts.

Definition fire (old new : row) (ts : list table) (g : trigger) : exn + list table :=
  match trg_body g old new (rows_of ts) with
  | inl e => inl e
  | inr assignments => inr (fold_left assign assignments ts)
  end.

Fixpoint fire_all (gs : list trigger) (old new : row) (ts : list table)
  : exn + list table :=
  match gs with
  | [] => inr ts
  | g :: gs' =>
      match fire old new ts g with
      | inl e => inl e
      | inr ts' => fire_all gs' old new ts'
      end
  end.

Fixpoint set_nth (k : nat) (r : row) (rows : list row) : list row :=
  match rows, k with
  | [], _ => []
  | _ :: rows', O => r :: rows'
  | x :: rows', S j => x :: set_nth j r rows'
  end.

(** The row at position [k] is updated: the [BEFORE] triggers run, the row is
    written, the [AFTER] triggers run.  A row that a trigger has deleted in
    the meantime is passed over. *)
Definition update_one (tbl : string) (i : nat) (v : value) (gs : list trigger)
    (ts : list table) (k : nat) : exn + list table :=
  match nth_error (rows_of ts tbl) k with
  | None => inr ts
  | Some old =>
      let new := set_cell old i v in
      match fire_all (filter is_before gs) old new ts with
      | inl e => inl e
      | inr ts1 =>
          fire_all (filter is_after gs) old new
            (update_table tbl (fun t => with_rows (set_nth k new (tbl_rows t)) t) ts1)
      end
  end.

Fixpoint update_each (tbl : string) (i : nat) (v : value) (gs : list trigger)
    (ks : list nat) (ts : list table) : exn + list table :=
  match ks with
  | [] => inr ts
  | k :: ks' =>
      match update_one tbl i v gs ts k with
      | inl e => inl e
      | inr ts' => update_each tbl i v gs ks' ts'
      end
  end.

(** The positions, from [k] on, of the rows that [p] selects. *)
Fixpoint matching (p : row -> bool) (k : nat) (rows : list row) : list nat :=
  match rows with
  | [] => []
  | r :: rows' => if p r then k :: matching p (S k) rows' else matching p (S k) rows'
  end.

(** The rows of [PRAGMA table_info]: cid, name, type, notnull, dflt_value, pk. *)
Fixpoint table_info (cid : Z) (cs : list column) : list row :=
  match cs with
  | [] => []
  | c :: cs' =>
      [ VInt cid; VText (col_name c); VText (col_type c);
        VInt (if col_notnull c then 1 else 0);
        match col_dflt c with Some d => VText d | None => VNull end;
        VInt (col_pk c) ] :: table_info (cid + 1) cs'
  end.

(** The positions of [names] among the columns, or the first name that is not
    a column. *)
Fixpoint positions (cs : list column) (names : list string) : string + list nat :=
  match names with
  | [] => inr []
  | n :: names' =>
      match col_index n cs with
      | None => inl n
      | Some i =>
          match positions cs names' with
          | inl m => inl m
          | inr ps => inr (i :: ps)
          end
      end
  end.

Definition run (s : stmt) (d : database) : exn + (list row * database) :=
  match s with
  | AlterAddColumn tbl col ty notnull dflt =>
      match find_table tbl (db_tables d) with
      | None => inl (op_error ("no such table: " ++ tbl))
      | Some t =>
          (* the limit on columns is checked before the name of the column *)
          if (max_columns <? List.length (tbl_cols t) + 1)%nat
          then inl (op_error ("too many columns on sqlite_altertab_" ++ tbl_name t))
          else
            match col_index col (tbl_cols t) with
            | Some _ => inl (op_error ("duplicate column name: " ++ col))
            | None =>
                match notnull, dflt with
                | true, None =>
                    inl (op_error "Cannot add a NOT NULL column with default value NULL")
                | _, _ =>
                    let c := mkColumn col ty notnull (option_map quote dflt) 0 Binary in
                    let v := match dflt with Some lit => VText lit | None => VNull end in
                    inr ([], mkDatabase (update_table tbl (add_column c v) (db_tables d))
                                        (db_indexes d) (db_triggers d))
                end
            end
      end
  | CreateIndexIfNotExists name tbl col =>
      match find_table tbl (db_tables d) with
      | None => inl (op_error ("no such table: main." ++ tbl))
      | Some t =>
          match find_table name (db_tables d) with
          | Some _ => inl (op_error ("there is already a table named " ++ name))
          | None =>
              if has_index name (db_indexes d) then inr ([], d)
              else
                match col_index col (tbl_cols t) with
                | None => inl (op_error ("no such column: " ++ col))
                | Some _ =>
                    inr ([], mkDatabase (db_tables d)
                               (db_indexes d ++ [mkIndex name (tbl_name t) [col]])
                               (db_triggers d))
                end
          end
      end
  | Update tbl col lit c =>
      match find_table tbl (db_tables d) with
      | None => inl (op_error ("no such table: " ++ tbl))
      | Some t =>
          match col_index col (tbl_cols t), missing_column (tbl_cols t) (cond_columns c) with
          | None, _ => inl (op_error ("no such column: " ++ col))
          | Some _, Some m => inl (op_error ("no such column: " ++ m))
          | Some i, None =>
              match filter (fires tbl col) (db_triggers d) with
              | [] =>
                  inr ([], mkDatabase
                             (update_table tbl (update_rows i (VText lit) c) (db_tables d))
                             (db_indexes d) (db_triggers d))
              | gs =>
                  (* with triggers the rows are updated one after the other *)
                  match update_each tbl i (VText lit) gs
                          (matching (selected (tbl_cols t) c) 0 (tbl_rows t)) (db_tables d) with
                  | inl e => inl e
                  | inr ts => inr ([], mkDatabase ts (db_indexes d) (db_triggers d))
                  end
              end
          end
      end
  | PragmaTableInfo tbl =>
      match find_table tbl (db_tables d) with
      | None => inr ([], d)
      | Some t => inr (table_info 0 (tbl_cols t), d)
      end
  | SelectCount tbl =>
      match find_table tbl (db_tables d) with
      | None => inl (op_error ("no such table: " ++ tbl))
      | Some t => inr ([[VInt (Z.of_nat (List.length (tbl_rows t)))]], d)
      end
  | SelectLimit cols tbl n =>
      match find_table tbl (db_tables d) with
      | None => inl (op_error ("no such table: " ++ tbl))
      | Some t =>
          match positions (tbl_cols t) cols with
          | inl m => inl (op_error ("no such column: " ++ m))
          | inr ps => inr (firstn n (map (fun r => map (cell r) ps) (tbl_rows t)), d)
          end
      end
  end.

(** A statement reads, changes the schema or changes data.  Python's
    [sqlite3] opens a transaction before a statement that changes data, and
    none before the others. *)
Inductive kind := Query | Schema | Data.

Definition kind_of (s : stmt) : kind :=
  match s with
  | AlterAddColumn _ _ _ _ _ | CreateIndexIfNotExists _ _ _ => Schema
  | Update _ _ _ _ => Data
  | PragmaTableInfo _ | SelectCount _ | SelectLimit _ _ _ => Query
  end.

(** *** Files and connections *)

Inductive node :=
| Directory
| NotADatabase
| DbFile (d : database).

(** An open connection: the file it is on, the database as the connection
    sees it ([None] when the file is not a database) and whether a
    transaction is open. *)
Record session := mkSession {
  ses_path : string;
  ses_db : option database;
  ses_txn : bool
}.

(** The current directory with its entries, and the connection of the
    process when one is open. *)
Record fsys := mkFsys {
  fs_cwd : string;
  fs_nodes : list (string * node);
  fs_session : option session
}.

Fixpoint lookup (path : string) (ns : list (string * node)) : option node :=
  match ns with
  | [] => None
  | (p, n) :: ns' => if (p =? path)%string then Some n else lookup path ns'
  end.

Fixpoint store (path : string) (n : node) (ns : list (string * node))
  : list (string * node) :=
  match ns with
  | [] => [(path, n)]
  | (p, m) :: ns' =>
      if (p =? path)%string then (p, n) :: ns' else (p, m) :: store path n ns'
  end.

Definition exists_ (path : string) (w : fsys) : bool :=
  match lookup path (fs_nodes w) with
  | Some _ => true
  | None => false
  end.

Definition listdir (path : string) (w : fsys) : list string :=
  if (path =? ".")%string then map fst (fs_nodes w) else [].

(** [sqlite3.connect] creates a file that does not exist, cannot open a
    directory, and opens any other file without reading it. *)
Definition connect (path : string) (w : fsys) : (exn + unit) * fsys :=
  match lookup path (fs_nodes w) with
  | None =>
      (inr tt, mkFsys (fs_cwd w) (store path (DbFile empty_db) (fs_nodes w))
                      (Some (mkSession path (Some empty_db) false)))
  | Some Directory => (inl (op_error "unable to open database file"), w)
  | Some NotADatabase =>
      (inr tt, mkFsys (fs_cwd w) (fs_nodes w) (Some (mkSession path None false)))
  | Some (DbFile d) =>
      (inr tt, mkFsys (fs_cwd w) (fs_nodes w) (Some (mkSession path (Some d) false)))
  end.

Definition closed_error : exn :=
  mkExn OtherSqliteError "Cannot operate on a closed database.".

(** A statement that fails leaves the database as it was.  Outside a
    transaction a change of schema is written to the file at once; a change
    of data opens a transaction and stays in the connection until commit. *)
Definition execute (_ : unit) (sql : string) (w : fsys) : (exn + list row) * fsys :=
  match fs_session w with
  | None => (inl closed_error, w)
  | Some s =>
      match ses_db s with
      | None => (inl (mkExn OtherSqliteError "file is not a database"), w)
      | Some d =>
          match parse sql with
          | None => (inl (op_error "syntax error"), w)
          | Some st =>
              match run st d with
              | inl e => (inl e, w)
              | inr (rows, d') =>
                  match kind_of st with
                  | Query => (inr rows, w)
                  | Data =>
                      (inr rows,
                       mkFsys (fs_cwd w) (fs_nodes w)
                              (Some (mkSession (ses_path s) (Some d') true)))
                  | Schema =>
                      if ses_txn s
                      then (inr rows,
                            mkFsys (fs_cwd w) (fs_nodes w)
                                   (Some (mkSession (ses_path s) (Some d') true)))
                      else (inr rows,
                            mkFsys (fs_cwd w)
                                   (store (ses_path s) (DbFile d') (fs_nodes w))
                                   (Some (mkSession (ses_path s) (Some d') false)))
                  end
              end
          end
      end
  end.

(** Commit writes the open transaction to the file. *)
Definition commit (_ : unit) (w : fsys) : (exn + unit) * fsys :=
  match fs_session w with
  | None => (inl closed_error, w)
  | Some s =>
      match ses_db s, ses_txn s with
      | Some d, true =>
          (inr tt, mkFsys (fs_cwd w) (store (ses_path s) (DbFile d) (fs_nodes w))
                          (Some (mkSession (ses_path s) (Some d) false)))
      | _, _ => (inr tt, w)
      end
  end.

(** Closing drops what was not committed. *)
Definition close (_ : unit) (w : fsys) : fsys :=
  mkFsys (fs_cwd w) (fs_nodes w) None.

#[export] Instance platform : Platform fsys unit := {|
  os_path_exists := exists_;
  os_getcwd := fs_cwd;
  os_listdir := listdir;
  sqlite3_connect := connect;
  cursor_execute := execute;
  conn_commit := commit;
  conn_close := close
|}.

End Lite.

(** * Properties of the control flow

    They hold over every [Platform]: whatever the calls to [os] and
    [sqlite3] return or raise. *)

Notation "x <- m ;; k" := (bind m (fun x => k))
  (at level 61, m at next level, right associativity).
Notation "m ;; k" := (bind m (fun _ => k))
  (at level 61, right associativity).

Lemma calls_app (t1 t2 : trace) : calls (t1 ++ t2)%list = (calls t1 ++ calls t2)%list.
Proof.
  induction t1 as [|[s|c] t1 IH]; simpl; [reflexivity | assumption | now rewrite IH].
Qed.

(** The statements that the driver sees between connecting and closing. *)
Definition is_work (c : call) : Prop :=
  match c with
  | CExecute _ _ | CCommit _ => True
  | _ => False
  end.

Definition is_execute (c : call) : Prop :=
  match c with
  | CExecute _ _ => True
  | _ => False
  end.

(** The SQL texts passed to [cursor.execute], in order. *)
Fixpoint executed (l : list call) : list string :=
  match l with
  | [] => []
  | CExecute sql _ :: l' => sql :: executed l'
  | _ :: l' => executed l'
  end.

Lemma executed_app (l1 l2 : list call) :
  executed (l1 ++ l2)%list = (executed l1 ++ executed l2)%list.
Proof.
  induction l1 as [|[] l1 IH]; simpl; try assumption; [reflexivity | now rewrite IH].
Qed.


Section Control.

Context {PS : PyStr} {W C : Type} {P : Platform W C}.

Implicit Types (st : state W C) (t : trace) (w : W) (c : C).

(** The three queries of the verification summary. *)
Definition verification_queries : list string :=
  [ "PRAGMA table_info(Users);";
    "SELECT COUNT(*) FROM Users;";
    "SELECT Username, AuthenticationMethod FROM Users LIMIT 5;" ].

(** *** Tame statements

    A statement is tame for a property [Q] of calls, a preorder [R] on worlds
    and a property [B] of returned values when it leaves the local [conn]
    alone, makes only calls that satisfy [Q], takes the world to an
    [R]-related one, and executes [return b] only for [b] in [B]. *)

Section Tame.

Variable Q : call -> Prop.
Variable R : W -> W -> Prop.
Variable B : bool -> Prop.
Hypothesis R_refl : forall w, R w w.
Hypothesis R_trans : forall w1 w2 w3, R w1 w2 -> R w2 w3 -> R w1 w3.

Definition allowed {A} (r : completion A) : Prop :=
  match r with
  | Return b => B b
  | _ => True
  end.

Definition tame {A} (m : action A) : Prop :=
  forall st r st' t, m st = (r, st', t) ->
  conn st' = conn st /\ Forall Q (calls t) /\ R (world st) (world st') /\ allowed r.

Lemma tame_ret {A} (a : A) : tame (ret a).
Proof. intros st r st' t [= <- <- <-]. simpl. auto. Qed.

Lemma tame_return {A} b : B b -> tame (@return_ W C A b).
Proof. intros Hb st r st' t [= <- <- <-]. simpl. auto. Qed.

Lemma tame_raise {A} e : tame (@raise W C A e).
Proof. intros st r st' t [= <- <- <-]. simpl. auto. Qed.

Lemma tame_print s : tame (@print W C s).
Proof. intros st r st' t [= <- <- <-]. simpl. auto. Qed.

Lemma tame_bind {A B'} (m : action A) (k : A -> action B') :
  tame m -> (forall a, tame (k a)) -> tame (bind m k).
Proof.
  intros Hm Hk st r st' t. unfold bind.
  destruct (m st) as [[r1 st1] t1] eqn:E1.
  destruct (Hm _ _ _ _ E1) as (Hc1 & Hq1 & Hr1 & Hb1).
  destruct r1 as [a|b|e]; try (intros [= <- <- <-]; auto).
  destruct (k a st1) as [[r2 st2] t2] eqn:E2.
  destruct (Hk a _ _ _ _ E2) as (Hc2 & Hq2 & Hr2 & Hb2).
  intros [= <- <- <-]. repeat split.
  - congruence.
  - rewrite calls_app. now apply Forall_app.
  - eauto.
  - assumption.
Qed.

Lemma tame_handle {A} (cs : list (clause A)) e :
  Forall (fun cl => forall e', tame (snd cl e')) cs -> tame (handle cs e).
Proof.
  induction 1 as [|[test h] cs Hh _ IH]; simpl.
  - apply tame_raise.
  - destruct (test e); [apply Hh | apply IH].
Qed.

Lemma tame_try_except {A} (body : action A) (cs : list (clause A)) :
  tame body -> Forall (fun cl => forall e, tame (snd cl e)) cs ->
  tame (try_except body cs).
Proof.
  intros Hb Hcs st r st' t. unfold try_except.
  destruct (body st) as [[r1 st1] t1] eqn:E1.
  destruct (Hb _ _ _ _ E1) as (Hc1 & Hq1 & Hr1 & Hb1).
  destruct r1 as [a|b|e]; try (intros [= <- <- <-]; auto).
  destruct (handle cs e st1) as [[r2 st2] t2] eqn:E2.
  destruct (tame_handle cs e Hcs _ _ _ _ E2) as (Hc2 & Hq2 & Hr2 & Hb2).
  intros [= <- <- <-]. repeat split.
  - congruence.
  - rewrite calls_app. now apply Forall_app.
  - eauto.
  - assumption.
Qed.

Lemma tame_for_each {X} (xs : list X) (body : X -> action unit) :
  Forall (fun x => tame (body x)) xs -> tame (for_each xs body).
Proof.
  induction 1 as [|x xs Hx _ IH]; simpl.
  - apply tame_ret.
  - apply tame_bind; [exact Hx | intros _; exact IH].
Qed.

Lemma tame_index {X} what (xs : list X) i : tame (@index W C X what xs i).
Proof.
  unfold index. destruct (nth_error xs i); [apply tame_ret | apply tame_raise].
Qed.

Lemma tame_subscript r i : tame (@subscript W C r i).
Proof.
  unfold subscript. destruct r; [apply tame_index | apply tame_raise].
Qed.

Lemma tame_gt_zero v : tame (@gt_zero W C v).
Proof.
  unfold gt_zero. destruct v; (apply tame_ret || apply tame_raise).
Qed.

(** [cursor.execute(sql)] respects [R] in every world. *)
Definition respects c (sql : string) : Prop :=
  forall w, R w (snd (cursor_execute c sql w)).

Lemma tame_execute c sql :
  (forall ok, Q (CExecute sql ok)) -> respects c sql -> tame (execute c sql).
Proof.
  intros HQ HR st r st' t. unfold execute, bind, get_world, set_world, log, ret, raise.
  specialize (HR (world st)).
  destruct (cursor_execute c sql (world st)) as [[e|rows] w'];
    simpl; intros [= <- <- <-]; simpl; auto.
Qed.

Lemma tame_commit c :
  (forall ok, Q (CCommit ok)) -> (forall w, R w (snd (conn_commit c w))) ->
  tame (commit c).
Proof.
  intros HQ HR st r st' t. unfold commit, bind, get_world, set_world, log, ret, raise.
  specialize (HR (world st)).
  destruct (conn_commit c (world st)) as [[e|[]] w'];
    simpl; intros [= <- <- <-]; simpl; auto.
Qed.

(** A statement text fits when executing it makes a call in [Q] and respects
    [R]. *)
Definition fits c (sql : string) : Prop :=
  (forall ok, Q (CExecute sql ok)) /\ respects c sql.

Hypothesis B_false : B false.

Lemma tame_run_step c i command : fits c command -> tame (run_step c i command).
Proof.
  intros [HQ HR]. unfold run_step. apply tame_try_except.
  - apply tame_bind; [now apply tame_execute | intros _].
    apply tame_bind; [apply tame_index | intros verb; apply tame_print].
  - apply Forall_cons; [|apply Forall_cons; [|apply Forall_nil]]; simpl; intros e.
    + destruct (is_duplicate_column e); [apply tame_print|].
      apply tame_bind; [apply tame_print | intros _; now apply tame_return].
    + apply tame_bind; [apply tame_print | intros _; now apply tame_return].
Qed.

Lemma tame_run_steps c commands : forall i,
  Forall (fits c) commands -> tame (run_steps c (enumerate i commands)).
Proof.
  intros i H. revert i. unfold run_steps.
  induction H as [|command commands Hc _ IH]; intros i; simpl.
  - apply tame_ret.
  - apply tame_bind; [now apply tame_run_step | intros _; apply IH].
Qed.

Lemma tame_verify c : Forall (fits c) verification_queries -> tame (verify c).
Proof.
  intros H. unfold verification_queries in H.
  inversion H as [|? ? [Q1 H1] H']; subst. inversion H' as [|? ? [Q2 H2] H'']; subst.
  inversion H'' as [|? ? [Q3 H3] _]; subst. clear H H' H''.
  unfold verify.
  apply tame_bind; [now apply tame_execute | intros rows].
  apply tame_bind; [apply tame_print | intros _].
  apply tame_bind.
  { apply tame_for_each. apply Forall_forall. intros column _.
    apply tame_bind; [apply tame_index | intros name].
    apply tame_bind; [apply tame_index | intros type]. apply tame_print. }
  intros _. apply tame_bind; [now apply tame_execute | intros rows'].
  apply tame_bind; [apply tame_subscript | intros user_count].
  apply tame_bind; [apply tame_print | intros _].
  apply tame_bind; [apply tame_gt_zero | intros [|]]; [|apply tame_ret].
  apply tame_bind; [now apply tame_execute | intros rows''].
  apply tame_bind; [apply tame_print | intros _].
  apply tame_for_each. apply Forall_forall. intros user _.
  apply tame_bind; [apply tame_index | intros name].
  apply tame_bind; [apply tame_index | intros method]. apply tame_print.
Qed.

(** The [try] block once the connection is made and bound to [conn]. *)
Definition migrate_with c : action unit :=
  print "Connected to workbot.db successfully!" ;;
  print "Running migration..." ;;
  run_steps c (enumerate 1 migration_commands) ;;
  commit c ;;
  print (Str.nl ++ "✓ All migration steps completed successfully!") ;;
  verify c ;;
  return_ true.

Hypothesis Q_commit : forall ok, Q (CCommit ok).
Hypothesis B_true : B true.

Lemma tame_migrate_with c :
  Forall (fits c) migration_commands ->
  Forall (fits c) verification_queries ->
  (forall w, R w (snd (conn_commit c w))) ->
  tame (migrate_with c).
Proof.
  intros Hm Hv Hc. unfold migrate_with.
  apply tame_bind; [apply tame_print | intros _].
  apply tame_bind; [apply tame_print | intros _].
  apply tame_bind; [now apply tame_run_steps | intros _].
  apply tame_bind; [now apply tame_commit | intros _].
  apply tame_bind; [apply tame_print | intros _].
  apply tame_bind; [now apply tame_verify | intros _].
  now apply tame_return.
Qed.

End Tame.

Lemma try_block_eq :
  try_block = (c <- connect db_path ;; assign_conn c ;; migrate_with c).
Proof. reflexivity. Qed.

Definition any_world (w w' : W) : Prop := True.

(** Between connecting and closing, the driver sees only [execute] and
    [commit], and [conn] stays bound. *)
Lemma migrate_with_calls c st r st' t :
  migrate_with c st = (r, st', t) -> conn st' = conn st /\ Forall is_work (calls t).
Proof.
  intros E.
  assert (H : tame is_work any_world (fun _ => True) (migrate_with c)).
  { apply tame_migrate_with; try easy; apply Forall_forall; easy. }
  destruct (H _ _ _ _ E) as (Hc & Hq & _). now split.
Qed.

(** *** The loop over the commands *)

(** [command.split()[0]] when there is one *)
Definition verb_of (command : string) : string := nth 0 (Str.split command) "".

(** The line a step prints when it executed ([true]) and when it was skipped
    ([false]). *)
Definition step_line (i : nat) (command : string) (ran : bool) : string :=
  if ran then step_label "✓" i ++ verb_of command ++ " command executed successfully"
  else step_label "⚠" i ++ "Column already exists, skipping: " ++ command.

(** What one round of the loop does, by the outcome of [cursor.execute]. *)
Lemma run_step_eq c i command st :
  run_step c i command st =
  match cursor_execute c command (world st) with
  | (inr _, w') =>
      match Str.split command with
      | _ :: _ =>
          (Normal tt, mkState w' (conn st),
           [Call (CExecute command true); Print (step_line i command true)])
      | [] =>
          (Return false, mkState w' (conn st),
           [Call (CExecute command true);
            Print (step_label "✗" i ++ "Unexpected error: list index out of range")])
      end
  | (inl e, w') =>
      if is_OperationalError e
      then if is_duplicate_column e
           then (Normal tt, mkState w' (conn st),
                 [Call (CExecute command false); Print (step_line i command false)])
           else (Return false, mkState w' (conn st),
                 [Call (CExecute command false);
                  Print (step_label "✗" i ++ "Error executing command: " ++ exn_msg e)])
      else (Return false, mkState w' (conn st),
            [Call (CExecute command false);
             Print (step_label "✗" i ++ "Unexpected error: " ++ exn_msg e)])
  end.
Proof.
  unfold run_step, try_except, execute, bind, get_world, set_world, log, ret, raise, index.
  destruct (cursor_execute c command (world st)) as [[e|rows] w'].
  - destruct (is_OperationalError e) eqn:Eo; cbn [handle fst snd]; rewrite ?Eo.
    + destruct (is_duplicate_column e); reflexivity.
    + reflexivity.
  - unfold step_line, verb_of. destruct (Str.split command); reflexivity.
Qed.

(** An exception that does not stop the run: the [OperationalError] of a
    duplicate column. *)
Definition benign (e : exn) : bool := is_OperationalError e && is_duplicate_column e.

(** A step that lets the run go on, from world [w] to [w']: the statement
    executed ([ran] is [true]) or it was skipped ([ran] is [false]). *)
Inductive step_ok c (command : string) w : bool -> W -> Prop :=
| step_executed rows w' :
    cursor_execute c command w = (inr rows, w') -> step_ok c command w true w'
| step_skipped e w' :
    cursor_execute c command w = (inl e, w') -> benign e = true ->
    step_ok c command w false w'.

Inductive steps_ok c : list string -> W -> list bool -> W -> Prop :=
| steps_done w : steps_ok c [] w [] w
| steps_next command commands w ran w' rans w'' :
    step_ok c command w ran w' -> steps_ok c commands w' rans w'' ->
    steps_ok c (command :: commands) w (ran :: rans) w''.

(** The trace of the loop when every step lets it go on. *)
Fixpoint steps_trace (i : nat) (commands : list string) (rans : list bool) : trace :=
  match commands, rans with
  | command :: commands', ran :: rans' =>
      Call (CExecute command ran) :: Print (step_line i command ran)
        :: steps_trace (S i) commands' rans'
  | _, _ => []
  end.

Lemma executed_steps_trace c commands w rans w' i :
  steps_ok c commands w rans w' ->
  executed (calls (steps_trace i commands rans)) = commands.
Proof.
  intros H. revert i. induction H; intros i; simpl; [reflexivity|].
  now rewrite IHsteps_ok.
Qed.

(** The loop falls through exactly when every step lets it. *)
Lemma run_steps_normal c commands : forall i st st' t,
  run_steps c (enumerate i commands) st = (Normal tt, st', t) ->
  exists rans,
    steps_ok c commands (world st) rans (world st') /\
    conn st' = conn st /\ t = steps_trace i commands rans.
Proof.
  induction commands as [|command commands IH]; intros i st st' t.
  - simpl. intros [= <- <-]. exists []. repeat split. constructor.
  - unfold run_steps. simpl. unfold bind at 1. rewrite run_step_eq.
    destruct (cursor_execute c command (world st)) as [[e|rows] w'] eqn:E.
    + destruct (is_OperationalError e) eqn:Eo; [|discriminate].
      destruct (is_duplicate_column e) eqn:Ed; [|discriminate].
      destruct (for_each _ _ _) as [[r2 st2] t2] eqn:E2.
      intros [= -> <- <-].
      apply (IH (S i)) in E2. destruct E2 as (rans & Hs & Hk & ->). simpl in Hs, Hk.
      exists (false :: rans). repeat split; [|assumption].
      econstructor; [|exact Hs]. eapply step_skipped; [exact E|].
      unfold benign. now rewrite Eo, Ed.
    + destruct (Str.split command); [discriminate|].
      destruct (for_each _ _ _) as [[r2 st2] t2] eqn:E2.
      intros [= -> <- <-].
      apply (IH (S i)) in E2. destruct E2 as (rans & Hs & Hk & ->). simpl in Hs, Hk.
      exists (true :: rans). repeat split; [|assumption].
      econstructor; [|exact Hs]. eapply step_executed. exact E.
Qed.

Definition splits (command : string) : Prop := Str.split command <> [].

Lemma run_steps_benign c commands w rans w' :
  steps_ok c commands w rans w' -> Forall splits commands ->
  forall i o,
    run_steps c (enumerate i commands) (mkState w o)
    = (Normal tt, mkState w' o, steps_trace i commands rans).
Proof.
  induction 1 as [|command commands w ran w1 rans w' H1 _ IH]; intros Hsp i o.
  - reflexivity.
  - inversion Hsp as [|? ? Hc Hsp']; subst.
    unfold run_steps in *. simpl. unfold bind at 1. rewrite run_step_eq.
    cbn [world conn].
    destruct H1 as [rows w1 E | e w1 E Hb]; rewrite E.
    + destruct (Str.split command) as [|verb ws] eqn:Ev; [now elim Hc|].
      now rewrite IH.
    + unfold benign in Hb. apply andb_prop in Hb. destruct Hb as [-> ->].
      now rewrite IH.
Qed.

(** A step that raises anything else stops the loop with [return False];
    the commands after it are not executed. *)
Lemma run_steps_fatal c before w rans w2 :
  steps_ok c before w rans w2 -> Forall splits before ->
  forall command after e w3 i o,
  cursor_execute c command w2 = (inl e, w3) ->
  benign e = false ->
  exists line,
    run_steps c (enumerate i (before ++ command :: after)) (mkState w o)
    = (Return false, mkState w3 o,
       steps_trace i before rans ++ [Call (CExecute command false); Print line])%list.
Proof.
  induction 1 as [|b before w ran w1 rans w2 H1 _ IH];
    intros Hsp command after e w3 i o E Hf.
  - unfold run_steps. simpl. unfold bind at 1. rewrite run_step_eq.
    cbn [world conn]. rewrite E. unfold benign in Hf.
    destruct (is_OperationalError e); simpl in Hf; [rewrite Hf|];
      eexists; reflexivity.
  - inversion Hsp as [|? ? Hc Hsp']; subst.
    destruct (IH Hsp' command after e w3 (S i) o E Hf) as [line E2].
    exists line.
    unfold run_steps in *. simpl. unfold bind at 1. rewrite run_step_eq.
    cbn [world conn].
    destruct H1 as [rows w1 E1 | e1 w1 E1 Hb]; rewrite E1.
    + destruct (Str.split b) as [|verb ws] eqn:Ev; [now elim Hc|].
      now rewrite E2.
    + unfold benign in Hb. apply andb_prop in Hb. destruct Hb as [-> ->].
      now rewrite E2.
Qed.

Lemma migration_commands_split : Forall splits migration_commands.
Proof. repeat constructor; discriminate. Qed.

(** *** The function as a whole *)

Lemma run_steps_return c commands i st b st' t :
  run_steps c (enumerate i commands) st = (Return b, st', t) -> b = false.
Proof.
  intros E.
  assert (H : tame is_execute any_world (fun b => b = false)
                (run_steps c (enumerate i commands))).
  { apply tame_run_steps; try easy. apply Forall_forall. easy. }
  now destruct (H _ _ _ _ E) as (_ & _ & _ & Hb).
Qed.

Lemma verify_no_return c st b st' t : verify c st <> (Return b, st', t).
Proof.
  intros E.
  assert (H : tame is_execute any_world (fun _ => False) (verify c)).
  { apply tame_verify; try easy. apply Forall_forall. easy. }
  now destruct (H _ _ _ _ E) as (_ & _ & _ & Hb).
Qed.

Definition greeting : trace :=
  [Print "Connected to workbot.db successfully!"; Print "Running migration..."].

Definition committed : trace :=
  [Call (CCommit true);
   Print (Str.nl ++ "✓ All migration steps completed successfully!")].

(** The [try] block after connecting, by what the loop, [commit] and the
    verification give. *)
Lemma migrate_with_eq c st :
  migrate_with c st =
  match run_steps c (enumerate 1 migration_commands) st with
  | (Normal _, st2, t2) =>
      match conn_commit c (world st2) with
      | (inr _, w3) =>
          match verify c (mkState w3 (conn st2)) with
          | (Normal _, st4, t4) =>
              (Return true, st4, greeting ++ t2 ++ committed ++ t4)%list
          | (Return b, st4, t4) =>
              (Return b, st4, greeting ++ t2 ++ committed ++ t4)%list
          | (Raise e, st4, t4) =>
              (Raise e, st4, greeting ++ t2 ++ committed ++ t4)%list
          end
      | (inl e, w3) =>
          (Raise e, mkState w3 (conn st2), greeting ++ t2 ++ [Call (CCommit false)])%list
      end
  | (Return b, st2, t2) => (Return b, st2, greeting ++ t2)%list
  | (Raise e, st2, t2) => (Raise e, st2, greeting ++ t2)%list
  end.
Proof.
  unfold migrate_with, greeting, committed.
  unfold bind at 1, print at 1. unfold bind at 1, print at 1. unfold bind at 1.
  destruct (run_steps c (enumerate 1 migration_commands) st) as [[[[]|b|e] st2] t2];
    try reflexivity.
  unfold bind at 1, commit, bind at 1, get_world.
  destruct (conn_commit c (world st2)) as [[e|[]] w3].
  - unfold bind, set_world, log, raise. cbn [world conn app]. reflexivity.
  - unfold bind at 1, set_world, log, bind at 1, print at 1, bind at 1.
    cbn [world conn app].
    destruct (verify c (mkState w3 (conn st2))) as [[[[]|b|e] st4] t4];
      unfold return_; cbn [app]; rewrite ?app_nil_r; reflexivity.
Qed.

Lemma migrate_with_leaves c st a st' t : migrate_with c st <> (Normal a, st', t).
Proof.
  rewrite migrate_with_eq.
  destruct (run_steps _ _ _) as [[[[]|b|e] st2] t2]; try discriminate.
  destruct (conn_commit _ _) as [[e|[]] w3]; try discriminate.
  destruct (verify _ _) as [[[[]|b|e] st4] t4]; discriminate.
Qed.

(** [print] in the two outer [except] clauses *)
Definition error_line (e : exn) : string :=
  if is_sqlite3_Error e then "Database error: " ++ exn_msg e
  else "Unexpected error: " ++ exn_msg e.

Definition unbound_conn : exn :=
  mkExn UnboundLocalError
    "cannot access local variable 'conn' where it is not associated with a value".

Definition closing : trace :=
  [Call CClose; Print (Str.nl ++ "Database connection closed.")].

Definition not_found : trace :=
  [Print ("Error: Database file '" ++ db_path ++ "' not found!");
   Print "Make sure you're running this script from your project directory."].

(** The function, by what the existence check and [sqlite3.connect] give. *)
Lemma migrate_database_eq st :
  migrate_database st =
  if os_path_exists db_path (world st)
  then
    match sqlite3_connect db_path (world st) with
    | (inl e, w1) =>
        (Raise unbound_conn, mkState w1 None,
         [Call (CExists db_path); Call (CConnect db_path false); Print (error_line e)])
    | (inr c, w1) =>
        match migrate_with c (mkState w1 (Some c)) with
        | (Raise e, st2, t2) =>
            (Return false, mkState (conn_close c (world st2)) (Some c),
             Call (CExists db_path) :: Call (CConnect db_path true)
               :: t2 ++ Print (error_line e) :: closing)%list
        | (r, st2, t2) =>
            (r, mkState (conn_close c (world st2)) (Some c),
             Call (CExists db_path) :: Call (CConnect db_path true) :: t2 ++ closing)%list
        end
    end
  else (Return false, mkState (world st) None, Call (CExists db_path) :: not_found).
Proof.
  unfold migrate_database. rewrite try_block_eq.
  unfold bind at 1. unfold enter. unfold bind at 1.
  unfold path_exists, bind at 1, log, bind at 1, get_world, ret.
  cbn [world conn].
  destruct (os_path_exists db_path (world st)); cbn [negb app]; [|reflexivity].
  unfold try_finally, try_except, bind at 1, connect, bind at 1, get_world.
  cbn [world conn].
  destruct (sqlite3_connect db_path (world st)) as [[e|c] w1].
  - unfold error_line. cbn. destruct (is_sqlite3_Error e); reflexivity.
  - unfold bind at 1, set_world, bind at 1, log, ret, bind at 1, assign_conn.
    cbn [world conn].
    destruct (migrate_with c (mkState w1 (Some c))) as [[r st2] t2] eqn:E.
    destruct (migrate_with_calls c _ _ _ _ E) as [Hc _].
    destruct st2 as [w2 c2]. cbn [conn] in Hc. subst c2.
    destruct r as [a|b|e].
    + reflexivity.
    + reflexivity.
    + unfold error_line. cbn [handle fst snd].
      destruct (is_sqlite3_Error e); cbn; rewrite <- ?app_assoc; reflexivity.
Qed.

(** A run that returns [True]: the file is there, the connection is made,
    every step lets the run go on, the commit and the verification go
    through, and the connection is closed. *)
Definition success st c w1 rans w2 w3 st4 t4 : Prop :=
  os_path_exists db_path (world st) = true /\
  sqlite3_connect db_path (world st) = (inr c, w1) /\
  steps_ok c migration_commands w1 rans w2 /\
  conn_commit c w2 = (inr tt, w3) /\
  verify c (mkState w3 (Some c)) = (Normal tt, st4, t4).

Definition success_trace rans t4 : trace :=
  (Call (CExists db_path) :: Call (CConnect db_path true)
     :: greeting ++ steps_trace 1 migration_commands rans ++ committed ++ t4 ++ closing)%list.


Lemma returns_true_success st st' t :
  migrate_database st = (Return true, st', t) ->
  exists c w1 rans w2 w3 st4 t4,
    success st c w1 rans w2 w3 st4 t4 /\
    st' = mkState (conn_close c (world st4)) (Some c) /\
    t = success_trace rans t4.
Proof.
  rewrite migrate_database_eq.
  destruct (os_path_exists db_path (world st)) eqn:Hx; [|discriminate].
  destruct (sqlite3_connect db_path (world st)) as [[e|c] w1] eqn:Hc; [discriminate|].
  rewrite migrate_with_eq.
  destruct (run_steps _ _ _) as [[[[]|b|e] st2] t2] eqn:Hs.
  - apply run_steps_normal in Hs. destruct Hs as (rans & Hs & Hk & ->).
    cbn [world conn] in Hs, Hk. rewrite Hk.
    destruct (conn_commit c (world st2)) as [[e|[]] w3] eqn:Hm; [discriminate|].
    destruct (verify c (mkState w3 (Some c))) as [[[[]|b|e] st4] t4] eqn:Hv.
    + intros [= <- <-].
      exists c, w1, rans, (world st2), w3, st4, t4. repeat split; try assumption.
      unfold success_trace. now rewrite <- !app_assoc.
    + now apply verify_no_return in Hv.
    + discriminate.
  - apply run_steps_return in Hs. subst b. discriminate.
  - discriminate.
Qed.

(** With the connection made, the function returns [True] or [False]: no
    exception reaches the caller. *)
Lemma connected_returns st c w1 :
  os_path_exists db_path (world st) = true ->
  sqlite3_connect db_path (world st) = (inr c, w1) ->
  exists b st' t, migrate_database st = (Return b, st', t).
Proof.
  intros Hx Hc. rewrite migrate_database_eq, Hx, Hc.
  destruct (migrate_with c (mkState w1 (Some c))) as [[[a|b|e] st2] t2] eqn:E.
  - now apply migrate_with_leaves in E.
  - eauto.
  - eauto.
Qed.

(** *** The connection protocol *)







Lemma calls_steps_trace i commands rans :
  Forall is_execute (calls (steps_trace i commands rans)).
Proof.
  revert i rans. induction commands as [|command commands IH]; intros i [|ran rans];
    simpl; constructor; [exact I | apply IH].
Qed.

(** C9.  When [workbot.db] does not exist, [migrate_database] prints the two
    lines of the error message and returns [False]; the only library call it
    has made is the existence check, so no connection was opened, and the
    world (file system and databases) is as it was. *)
Theorem missing_file_returns_false st :
  os_path_exists db_path (world st) = false ->
  exists st' t,
    migrate_database st = (Return false, st', t) /\
    world st' = world st /\
    calls t = [CExists db_path] /\
    stdout t = ["Error: Database file 'workbot.db' not found!";
                "Make sure you're running this script from your project directory."].
Proof.
  intros Hx. rewrite migrate_database_eq, Hx.
  eexists. eexists. repeat split.
Qed.

(** C2, at the input where the code departs from it.  When the file exists
    and [sqlite3.connect] raises, the [except] clause prints its message, and
    then the [finally] block reads the local [conn], which was never bound:
    the [UnboundLocalError] replaces the pending [return False] and reaches
    the caller. *)
Theorem connect_failure_escapes st e w1 :
  os_path_exists db_path (world st) = true ->
  sqlite3_connect db_path (world st) = (inl e, w1) ->
  migrate_database st
  = (Raise unbound_conn, mkState w1 None,
     [Call (CExists db_path); Call (CConnect db_path false); Print (error_line e)]).
Proof.
  intros Hx Hc. now rewrite migrate_database_eq, Hx, Hc.
Qed.

(** C3.  Let the connection be made, let the steps before [command] execute or
    be skipped, and let [command] raise an exception other than the
    [OperationalError] of a duplicate column.  Then [migrate_database] returns
    [False]; the statements it has executed are those up to [command] and no
    later one; [commit] was not called; the connection is closed on the world
    the failing statement left. *)
Theorem fatal_step_stops_the_run st c w1 before command after rans w2 e w3 :
  os_path_exists db_path (world st) = true ->
  sqlite3_connect db_path (world st) = (inr c, w1) ->
  migration_commands = (before ++ command :: after)%list ->
  steps_ok c before w1 rans w2 ->
  cursor_execute c command w2 = (inl e, w3) ->
  benign e = false ->
  exists st' t,
    migrate_database st = (Return false, st', t) /\
    executed (calls t) = (before ++ [command])%list /\
    (forall ok, ~ In (CCommit ok) (calls t)) /\
    world st' = conn_close c w3.
Proof.
  intros Hx Hc Hsplit Hs He Hf.
  assert (Hsp : Forall splits before).
  { pose proof migration_commands_split as H. rewrite Hsplit in H.
    now apply Forall_app in H. }
  destruct (run_steps_fatal c before w1 rans w2 Hs Hsp command after e w3 1 (Some c) He Hf)
    as [line E].
  rewrite migrate_database_eq, Hx, Hc, migrate_with_eq, Hsplit, E.
  eexists. eexists. split; [reflexivity|].
  cbn [world]. unfold greeting, closing. cbn [app calls].
  rewrite !calls_app. cbn [calls app].
  pose proof (calls_steps_trace 1 before rans) as Hex.
  repeat split.
  - cbn [executed]. rewrite !executed_app. cbn [executed].
    rewrite (executed_steps_trace c before w1 rans w2 1 Hs). now rewrite <- app_assoc.
  - intros ok [H|[H|H]]; try discriminate.
    apply in_app_or in H. destruct H as [H|H].
    + apply in_app_or in H. destruct H as [H|[H|[]]]; [|discriminate].
      rewrite Forall_forall in Hex. exact (Hex _ H).
    + destruct H as [H|[]]. discriminate.
Qed.


(** *** The confirmation *)

Definition banner_trace w : trace :=
  [ Print "WorkBot Database Migration Script";
    Print (Str.times "=" 40);
    Print "This script will add Identity Server fields to the Users table.";
    Print "";
    Call CGetcwd;
    Print ("Current directory: " ++ os_getcwd w);
    Call (CListdir ".");
    Print (match filter (Str.endswith ".db") (os_listdir "." w) with
           | _ :: _ =>
               "Found database files: "
                 ++ Str.join ", " (filter (Str.endswith ".db") (os_listdir "." w))
           | [] => "No .db files found in current directory."
           end);
    Print "";
    Print "Do you want to proceed with the migration? (y/N): " ].



(** The module body, by the answer and by what [migrate_database] gives. *)
Lemma main_eq line st :
  main line st =
  if confirmed (str_lower (str_strip line))
  then
    match migrate_database st with
    | (Return true, st', t) =>
        (Normal tt, st',
         banner_trace (world st) ++ t ++
           [Print (Str.nl ++ "🎉 Migration completed successfully!");
            Print "You can now continue with the Identity Server setup."])%list
    | (Raise e, st', t) => (Raise e, st', banner_trace (world st) ++ t)%list
    | (_, st', t) =>
        (Normal tt, st',
         banner_trace (world st) ++ t ++
           [Print (Str.nl ++ "❌ Migration failed. Please check the errors above.")])%list
    end
  else (Normal tt, st, banner_trace (world st) ++ [Print "Migration cancelled."])%list.
Proof.
  unfold main, banner, input, getcwd, listdir, bind, print, log, get_world, ret,
    call_function.
  destruct (filter (Str.endswith ".db") (os_listdir "." (world st))) eqn:Ef;
    (destruct (confirmed (str_lower (str_strip line)));
     [ destruct (migrate_database st) as [[[a|[|]|e] st'] t];
       unfold banner_trace; rewrite Ef; reflexivity
     | unfold banner_trace; rewrite Ef; reflexivity ]).
Qed.



End Control.

(** * Further properties of the control flow *)

Section Further.

Local Open Scope list_scope.

Context {PS : PyStr} {W C : Type} {P : Platform W C}.

Implicit Types (st : state W C) (t : trace) (w : W) (c : C).

Lemma printed_app (t1 t2 : trace) : stdout (t1 ++ t2) = stdout t1 ++ stdout t2.
Proof.
  induction t1 as [|[s|k] t1 IH]; simpl; [reflexivity | now rewrite IH | assumption].
Qed.

(** ** When the function returns [True] *)

(** X1.  [migrate_database] returns [True] only when the file exists, the
    connection is made, every step of the list is executed or skipped for a
    duplicate column, the commit goes through and the verification summary
    raises nothing; the world it leaves is then the one after the
    verification, with the connection closed. *)
Theorem returns_true_only_when st st' t :
  migrate_database st = (Return true, st', t) ->
  exists c w1 rans w2 w3 st4 t4,
    success st c w1 rans w2 w3 st4 t4 /\
    world st' = conn_close c (world st4).
Proof.
  intros E. apply returns_true_success in E.
  destruct E as (c & w1 & rans & w2 & w3 & st4 & t4 & Hs & -> & _).
  now exists c, w1, rans, w2, w3, st4, t4.
Qed.

(** ** The statements a run executes *)

Definition prefix_of {A} (xs ys : list A) : Prop := exists rest, ys = xs ++ rest.

Lemma prefix_of_refl {A} (xs : list A) : prefix_of xs xs.
Proof. exists []. now rewrite app_nil_r. Qed.

Lemma prefix_of_nil {A} (xs : list A) : prefix_of [] xs.
Proof. now exists xs. Qed.

Lemma prefix_of_app {A} (xs ys zs : list A) :
  prefix_of ys zs -> prefix_of (xs ++ ys) (xs ++ zs).
Proof. intros [rest ->]. exists rest. now rewrite app_assoc. Qed.

Lemma prefix_of_longer {A} (xs ys zs : list A) :
  prefix_of xs ys -> prefix_of xs (ys ++ zs).
Proof. intros [rest ->]. exists (rest ++ zs). now rewrite app_assoc. Qed.

(** A statement plays [sqls] when it passes exactly these texts to
    [cursor.execute], in order, if it falls through, and a prefix of them if
    it returns or raises. *)
Definition plays (sqls : list string) {A} (m : action A) : Prop :=
  forall st r st' t, m st = (r, st', t) ->
  match r with
  | Normal _ => executed (calls t) = sqls
  | _ => prefix_of (executed (calls t)) sqls
  end.

(** It plays part of [sqls] when it executes a prefix of them, however it
    ends. *)
Definition plays_part (sqls : list string) {A} (m : action A) : Prop :=
  forall st r st' t, m st = (r, st', t) -> prefix_of (executed (calls t)) sqls.

Lemma plays_weaken sqls {A} (m : action A) : plays sqls m -> plays_part sqls m.
Proof.
  intros H st r st' t E. specialize (H _ _ _ _ E).
  destruct r; [rewrite H; apply prefix_of_refl | assumption | assumption].
Qed.

Lemma plays_part_longer xs ys {A} (m : action A) :
  plays_part xs m -> plays_part (xs ++ ys) m.
Proof. intros H st r st' t E. apply prefix_of_longer. exact (H _ _ _ _ E). Qed.

Lemma plays_ret {A} (a : A) : plays [] (ret a).
Proof. intros st r st' t [= <- <- <-]. reflexivity. Qed.

Lemma plays_return {A} b : plays [] (@return_ W C A b).
Proof. intros st r st' t [= <- <- <-]. apply prefix_of_nil. Qed.

Lemma plays_raise {A} e : plays [] (@raise W C A e).
Proof. intros st r st' t [= <- <- <-]. apply prefix_of_nil. Qed.

Lemma plays_print s : plays [] (@print W C s).
Proof. intros st r st' t [= <- <- <-]. reflexivity. Qed.

Lemma plays_bind xs ys {A B} (m : action A) (k : A -> action B) :
  plays xs m -> (forall a, plays ys (k a)) -> plays (xs ++ ys) (bind m k).
Proof.
  intros Hm Hk st r st' t. unfold bind.
  destruct (m st) as [[r1 st1] t1] eqn:E1. specialize (Hm _ _ _ _ E1).
  destruct r1 as [a|b|e]; try (intros [= <- <- <-]; now apply prefix_of_longer).
  destruct (k a st1) as [[r2 st2] t2] eqn:E2. specialize (Hk a _ _ _ _ E2).
  intros [= <- <- <-]. rewrite calls_app, executed_app, Hm.
  destruct r2; [now rewrite Hk | now apply prefix_of_app | now apply prefix_of_app].
Qed.

Lemma plays_part_bind xs ys {A B} (m : action A) (k : A -> action B) :
  plays xs m -> (forall a, plays_part ys (k a)) -> plays_part (xs ++ ys) (bind m k).
Proof.
  intros Hm Hk st r st' t. unfold bind.
  destruct (m st) as [[r1 st1] t1] eqn:E1. specialize (Hm _ _ _ _ E1).
  destruct r1 as [a|b|e]; try (intros [= <- <- <-]; now apply prefix_of_longer).
  destruct (k a st1) as [[r2 st2] t2] eqn:E2. specialize (Hk a _ _ _ _ E2).
  intros [= <- <- <-]. rewrite calls_app, executed_app, Hm. now apply prefix_of_app.
Qed.

Lemma plays_for_each_quiet {X} (xs : list X) (body : X -> action unit) :
  (forall x, plays [] (body x)) -> plays [] (for_each xs body).
Proof.
  intros Hb. induction xs as [|x xs IH]; simpl.
  - apply plays_ret.
  - apply (plays_bind [] []); [apply Hb | intros _; exact IH].
Qed.

Lemma plays_index {X} what (xs : list X) i : plays [] (@index W C X what xs i).
Proof.
  unfold index. destruct (nth_error xs i); [apply plays_ret | apply plays_raise].
Qed.

Lemma plays_subscript r i : plays [] (@subscript W C r i).
Proof.
  unfold subscript. destruct r; [apply plays_index | apply plays_raise].
Qed.

Lemma plays_gt_zero v : plays [] (@gt_zero W C v).
Proof.
  unfold gt_zero. destruct v; (apply plays_ret || apply plays_raise).
Qed.

Lemma plays_execute c sql : plays [sql] (execute c sql).
Proof.
  intros st r st' t. unfold execute, bind, get_world, set_world, log, ret, raise.
  destruct (cursor_execute c sql (world st)) as [[e|rows] w'];
    simpl; intros [= <- <- <-]; simpl; [apply prefix_of_refl | reflexivity].
Qed.

Lemma plays_commit c : plays [] (commit c).
Proof.
  intros st r st' t. unfold commit, bind, get_world, set_world, log, ret, raise.
  destruct (conn_commit c (world st)) as [[e|[]] w'];
    simpl; intros [= <- <- <-]; simpl; [apply prefix_of_nil | reflexivity].
Qed.

Lemma plays_run_step c i command : plays [command] (run_step c i command).
Proof.
  intros st r st' t. rewrite run_step_eq.
  destruct (cursor_execute c command (world st)) as [[e|rows] w'].
  - destruct (is_OperationalError e); [destruct (is_duplicate_column e)|];
      intros [= <- <- <-]; simpl; (reflexivity || apply prefix_of_refl).
  - destruct (Str.split command);
      intros [= <- <- <-]; simpl; (reflexivity || apply prefix_of_refl).
Qed.

Lemma plays_run_steps c commands : forall i,
  plays commands (run_steps c (enumerate i commands)).
Proof.
  unfold run_steps. induction commands as [|command commands IH]; intros i; simpl.
  - apply plays_ret.
  - apply (plays_bind [command] commands); [apply plays_run_step | intros _; apply IH].
Qed.

Lemma plays_verify c : plays_part verification_queries (verify c).
Proof.
  unfold verify, verification_queries.
  apply (plays_part_bind [_] [_; _]); [apply plays_execute | intros rows].
  apply (plays_part_bind [] [_; _]); [apply plays_print | intros _].
  apply (plays_part_bind [] [_; _]).
  { apply plays_for_each_quiet. intros column.
    apply (plays_bind [] []); [apply plays_index | intros name].
    apply (plays_bind [] []); [apply plays_index | intros type]. apply plays_print. }
  intros _. apply (plays_part_bind [_] [_]); [apply plays_execute | intros rows'].
  apply (plays_part_bind [] [_]); [apply plays_subscript | intros user_count].
  apply (plays_part_bind [] [_]); [apply plays_print | intros _].
  apply (plays_part_bind [] [_]); [apply plays_gt_zero | intros [|]].
  - apply plays_weaken.
    apply (plays_bind [_] []); [apply plays_execute | intros rows''].
    apply (plays_bind [] []); [apply plays_print | intros _].
    apply plays_for_each_quiet. intros user.
    apply (plays_bind [] []); [apply plays_index | intros name].
    apply (plays_bind [] []); [apply plays_index | intros method]. apply plays_print.
  - apply (plays_part_longer [] [_]). apply plays_weaken. apply plays_ret.
Qed.

Lemma plays_migrate_with c :
  plays_part (migration_commands ++ verification_queries) (migrate_with c).
Proof.
  unfold migrate_with.
  apply (plays_part_bind [] (migration_commands ++ verification_queries));
    [apply plays_print | intros _].
  apply (plays_part_bind [] (migration_commands ++ verification_queries));
    [apply plays_print | intros _].
  apply (plays_part_bind migration_commands verification_queries);
    [apply plays_run_steps | intros _].
  apply (plays_part_bind [] verification_queries); [apply plays_commit | intros _].
  apply (plays_part_bind [] verification_queries); [apply plays_print | intros _].
  intros st r st' t. unfold bind.
  destruct (verify c st) as [[r1 st1] t1] eqn:E1.
  pose proof (plays_verify c _ _ _ _ E1) as H1.
  destruct r1 as [a|b|e]; intros [= <- <- <-]; try assumption.
  now rewrite app_nil_r.
Qed.

(** X2.  Whatever the platform does, the texts a run passes to
    [cursor.execute] are a prefix of the eight migration commands followed by
    the three verification queries: no other statement is ever executed, none
    is executed twice, and none out of order. *)
Theorem executes_only_the_script st :
  prefix_of (executed (calls (snd (migrate_database st))))
            (migration_commands ++ verification_queries).
Proof.
  rewrite migrate_database_eq.
  destruct (os_path_exists db_path (world st)); [|apply prefix_of_nil].
  destruct (sqlite3_connect db_path (world st)) as [[e|c] w1]; [apply prefix_of_nil|].
  destruct (migrate_with c (mkState w1 (Some c))) as [[r st2] t2] eqn:E.
  pose proof (plays_migrate_with c _ _ _ _ E) as H.
  assert (Hx : forall t3, executed (calls t3) = [] ->
               executed (calls (Call (CExists db_path) :: Call (CConnect db_path true)
                                  :: t2 ++ t3)) = executed (calls t2)).
  { intros t3 H3. cbn [calls executed]. rewrite calls_app, executed_app, H3.
    apply app_nil_r. }
  destruct r as [a|b|e]; cbn [snd]; rewrite Hx by reflexivity; exact H.
Qed.

(** ** What [False] does not tell *)

(** X3.  When every step goes through and the commit succeeds, an exception
    in the verification summary still makes [migrate_database] print the
    error and return [False]: the commit is among the calls of that run, so a
    [False] result does not mean that nothing was committed. *)
Theorem committed_then_false st c w1 rans w2 w3 e st4 t4 :
  os_path_exists db_path (world st) = true ->
  sqlite3_connect db_path (world st) = (inr c, w1) ->
  steps_ok c migration_commands w1 rans w2 ->
  conn_commit c w2 = (inr tt, w3) ->
  verify c (mkState w3 (Some c)) = (Raise e, st4, t4) ->
  exists st' t,
    migrate_database st = (Return false, st', t) /\
    world st' = conn_close c (world st4) /\
    In (CCommit true) (calls t) /\
    In (error_line e) (stdout t).
Proof.
  intros Hx Hc Hs Hm Hv.
  rewrite migrate_database_eq, Hx, Hc, migrate_with_eq.
  rewrite (run_steps_benign _ _ _ _ _ Hs migration_commands_split).
  cbn [world conn]. rewrite Hm, Hv.
  eexists. eexists. split; [reflexivity|]. split; [reflexivity|]. split.
  - cbn [calls]. rewrite !calls_app. right. right.
    apply in_or_app. left. apply in_or_app. right.
    apply in_or_app. right. apply in_or_app. left. now left.
  - cbn [stdout]. rewrite !printed_app. apply in_or_app. right. now left.
Qed.

(** X8.  [commit] is called only when the connection was made and every one
    of the eight steps was executed or skipped for a duplicate column. *)
Theorem commit_only_after_all_steps st ok :
  In (CCommit ok) (calls (snd (migrate_database st))) ->
  exists c w1 rans w2,
    sqlite3_connect db_path (world st) = (inr c, w1) /\
    steps_ok c migration_commands w1 rans w2.
Proof.
  rewrite migrate_database_eq.
  destruct (os_path_exists db_path (world st)).
  2:{ simpl. intros [H|[]]. discriminate. }
  destruct (sqlite3_connect db_path (world st)) as [[e|c] w1] eqn:Hc.
  { simpl. intros [H|[H|[]]]; discriminate. }
  intros Hin. exists c, w1.
  rewrite migrate_with_eq in Hin.
  destruct (run_steps c (enumerate 1 migration_commands) (mkState w1 (Some c)))
    as [[r st2] t2] eqn:Hs.
  destruct r as [[]|b|e].
  - apply run_steps_normal in Hs. destruct Hs as (rans & Hs & _).
    exists rans, (world st2). now split.
  - exfalso.
    assert (H : tame is_execute any_world (fun _ => True)
                  (run_steps c (enumerate 1 migration_commands))).
    { apply tame_run_steps; try easy. apply Forall_forall. easy. }
    destruct (H _ _ _ _ Hs) as (_ & Hq & _).
    cbn [snd calls] in Hin. rewrite !calls_app in Hin. cbn [calls app] in Hin.
    destruct Hin as [Hin|[Hin|Hin]]; try discriminate.
    apply in_app_or in Hin. destruct Hin as [Hin|[Hin|[]]]; [|discriminate].
    rewrite Forall_forall in Hq. exact (Hq _ Hin).
  - exfalso.
    assert (H : tame is_execute any_world (fun _ => True)
                  (run_steps c (enumerate 1 migration_commands))).
    { apply tame_run_steps; try easy. apply Forall_forall. easy. }
    destruct (H _ _ _ _ Hs) as (_ & Hq & _).
    cbn [snd calls] in Hin. rewrite !calls_app in Hin. cbn [calls app] in Hin.
    destruct Hin as [Hin|[Hin|Hin]]; try discriminate.
    apply in_app_or in Hin. destruct Hin as [Hin|[Hin|[]]]; [|discriminate].
    rewrite Forall_forall in Hq. exact (Hq _ Hin).
Qed.

(** ** The module body when the connection cannot be made *)

(** X7.  When the answer is [y] or [yes], the file exists and
    [sqlite3.connect] raises, the script does not reach either of its closing
    messages: the [UnboundLocalError] of the [finally] block passes through
    the module body, and the last line printed is the one of the [except]
    clause. *)
Theorem main_stops_on_connect_failure line st e w1 :
  confirmed (str_lower (str_strip line)) = true ->
  os_path_exists db_path (world st) = true ->
  sqlite3_connect db_path (world st) = (inl e, w1) ->
  main line st
  = (Raise unbound_conn, mkState w1 None,
     banner_trace (world st)
       ++ [Call (CExists db_path); Call (CConnect db_path false); Print (error_line e)]).
Proof.
  intros Ha Hx Hc. now rewrite main_eq, Ha, migrate_database_eq, Hx, Hc.
Qed.

End Further.

(** * Properties of the migration on the SQLite model *)

Import Lite.
Open Scope list_scope.

(** ** Files *)

Lemma lookup_store_same path n ns : lookup path (store path n ns) = Some n.
Proof.
  induction ns as [|[p m] ns IH]; simpl.
  - now rewrite String.eqb_refl.
  - destruct (p =? path)%string eqn:E; simpl; rewrite E; [reflexivity | exact IH].
Qed.




(** ** Tables and columns *)















(** ** Triggers change rows only *)









(** ** Lower case and ASCII *)





(** ** The statements of the script *)

Definition backfill_condition : cond :=
  Or (IsNull "AuthenticationMethod") (EqText "AuthenticationMethod" "").

Definition migration_stmts : list stmt :=
  [ AlterAddColumn "Users" "DisplayName" "TEXT" false None;
    AlterAddColumn "Users" "ExternalId" "TEXT" false None;
    AlterAddColumn "Users" "EmployeeId" "TEXT" false None;
    AlterAddColumn "Users" "AuthenticationMethod" "TEXT" true (Some "Local");
    CreateIndexIfNotExists "IX_Users_ExternalId" "Users" "ExternalId";
    CreateIndexIfNotExists "IX_Users_EmployeeId" "Users" "EmployeeId";
    CreateIndexIfNotExists "IX_Users_AuthenticationMethod" "Users" "AuthenticationMethod";
    Update "Users" "AuthenticationMethod" "Local" backfill_condition ].

Definition verification_stmts : list stmt :=
  [ PragmaTableInfo "Users";
    SelectCount "Users";
    SelectLimit ["Username"; "AuthenticationMethod"] "Users" 5 ].

Lemma parse_verification_queries :
  map parse verification_queries = map Some verification_stmts.
Proof. reflexivity. Qed.

Section OnLite.

Context {PS : PyStr}.

(** ** Which errors of the engine are benign *)








(** ** One step on the database *)

(** The database before and after a step that lets the run go on. *)
Definition db_step (s : stmt) (d : database) (ran : bool) (d' : database) : Prop :=
  if ran then exists rows, run s d = inr (rows, d')
  else exists e, run s d = inl e /\ benign e = true /\ d' = d.













(** ** From the world to the database *)

Inductive db_steps : list stmt -> database -> list bool -> database -> Prop :=
| db_steps_done d : db_steps [] d [] d
| db_steps_next s ss d ran d' rans d'' :
    db_step s d ran d' -> db_steps ss d' rans d'' ->
    db_steps (s :: ss) d (ran :: rans) d''.

(** The world while the connection of the script is open on database [d]. *)
Definition live (cwd : string) (ns : list (string * node)) (d : database) (txn : bool)
  : fsys :=
  mkFsys cwd ns (Some (mkSession db_path (Some d) txn)).

Lemma live_step cwd ns d txn command s ran w' :
  parse command = Some s ->
  step_ok tt command (live cwd ns d txn) ran w' ->
  exists d',
    db_step s d ran d' /\
    w' = if ran
         then match kind_of s with
              | Query => live cwd ns d txn
              | Data => live cwd ns d' true
              | Schema =>
                  if txn then live cwd ns d' true
                  else live cwd (store db_path (DbFile d') ns) d' false
              end
         else live cwd ns d txn.
Proof.
  intros Hp Hs.
  destruct Hs as [rows w' E | e w' E Hb];
    cbn [cursor_execute platform] in E; unfold execute, live in E;
    cbn [fs_session ses_db ses_path ses_txn fs_cwd fs_nodes] in E; rewrite Hp in E;
    unfold db_step.
  - destruct (run s d) as [e|[rows' d2]]; [discriminate|].
    exists d2. split; [now exists rows'|].
    destruct (kind_of s); [| destruct txn |]; now injection E as _ <-.
  - destruct (run s d) as [e'|[rows' d2]].
    + injection E as <- <-. exists d. split; [|reflexivity]. now exists e'.
    + destruct (kind_of s); [| destruct txn |]; discriminate.
Qed.





(** ** The verification summary reads *)

Lemma query_reads sql s w :
  parse sql = Some s -> kind_of s = Query -> snd (execute tt sql w) = w.
Proof.
  intros Hp Hk. unfold execute.
  destruct (fs_session w) as [ses|]; [|reflexivity].
  destruct (ses_db ses) as [d|]; [|reflexivity].
  rewrite Hp. destruct (run s d) as [e|[rows d']]; [reflexivity|].
  now rewrite Hk.
Qed.

Lemma verify_reads st r st' t : verify tt st = (r, st', t) -> world st' = world st.
Proof.
  intros E.
  assert (H : tame (fun _ => True) (fun w w' : fsys => w' = w) (fun _ => True) (verify tt)).
  { apply tame_verify; try easy; [congruence|].
    apply Forall_cons; [|apply Forall_cons; [|apply Forall_cons; [|apply Forall_nil]]];
      (split; [easy|]); intros w; cbn [cursor_execute platform];
      eapply query_reads; reflexivity. }
  now destruct (H _ _ _ _ E) as (_ & _ & Hw & _).
Qed.

(** ** A successful run, on the database *)


(** C10.  When [migrate_database] returns [True], the step loop has taken
    the world to some [w2], the commit has taken it to [w3], and the files
    the function leaves behind are exactly the files of [w3]: the three
    statements of the verification summary, the only ones executed after the
    commit, have changed nothing. *)
Theorem verification_only_reads st st' t :
  migrate_database st = (Return true, st', t) ->
  exists w1 rans w2 w3 t4,
    sqlite3_connect db_path (world st) = (inr tt, w1) /\
    steps_ok tt migration_commands w1 rans w2 /\
    conn_commit tt w2 = (inr tt, w3) /\
    fs_nodes (world st') = fs_nodes w3 /\
    fs_cwd (world st') = fs_cwd w3 /\
    t = success_trace rans t4 /\
    Forall (fun c => exists sql ok, c = CExecute sql ok /\ In sql verification_queries)
           (calls t4).
Proof.
  intros E. apply returns_true_success in E.
  destruct E as ([] & w1 & rans & w2 & w3 & st4 & t4 & Hs & -> & ->).
  pose proof Hs as (Hx & Hc & Hst & Hm & Hv).
  exists w1, rans, w2, w3, t4. repeat split; try assumption.
  - apply verify_reads in Hv. cbn [world] in *. now rewrite Hv.
  - apply verify_reads in Hv. cbn [world] in *. now rewrite Hv.
  - assert (H : tame (fun c => exists sql ok, c = CExecute sql ok /\ In sql verification_queries)
                     any_world (fun _ => True) (verify tt)).
    { apply tame_verify; try easy. apply Forall_forall. intros sql Hin.
      split; [|easy]. intros ok. exists sql, ok. now split. }
    now destruct (H _ _ _ _ Hv) as (_ & Hq & _).
Qed.

(** ** Only the Users table *)



























(** ** The Users table along a run *)







(** ** The backfill *)


















(** ** Running the migration again *)




















End OnLite.

(** * Further properties of the migration on the SQLite model *)

Section FurtherOnLite.

Context {PS : PyStr}.

(** ** No rollback *)

Lemma execute_failure_keeps sql w e w' : execute tt sql w = (inl e, w') -> w' = w.
Proof.
  unfold execute.
  destruct (fs_session w) as [ses|]; [|now intros [= _ <-]].
  destruct (ses_db ses) as [d|]; [|now intros [= _ <-]].
  destruct (parse sql) as [s|]; [|now intros [= _ <-]].
  destruct (run s d) as [e'|[rows d']]; [now intros [= _ <-]|].
  destruct (kind_of s); [| destruct (ses_txn ses) |]; discriminate.
Qed.

(** Steps that change the schema, seen from the file: after them it holds
    the database the connection sees. *)
Lemma schema_steps_file cwd : forall commands stmts,
  map parse commands = map Some stmts ->
  Forall (fun s => kind_of s = Schema) stmts ->
  forall ns d rans w',
  lookup db_path ns = Some (DbFile d) ->
  steps_ok tt commands (live cwd ns d false) rans w' ->
  exists d' ns',
    db_steps stmts d rans d' /\
    w' = live cwd ns' d' false /\
    lookup db_path ns' = Some (DbFile d').
Proof.
  induction commands as [|command commands IH]; intros [|s stmts] Hp Hk ns d rans w' Hl Hs;
    try discriminate.
  - inversion Hs; subst. exists d, ns. repeat split; [constructor | assumption].
  - injection Hp as Hp Hps. inversion Hk as [|? ? Hks Hk']; subst.
    inversion Hs as [|? ? ? ran w1 rans' ? H1 Hrest]; subst.
    destruct (live_step _ _ _ _ _ _ _ _ Hp H1) as (d1 & Hd1 & ->).
    rewrite Hks in Hrest.
    destruct ran.
    + destruct (IH stmts Hps Hk' _ _ _ _ (lookup_store_same _ _ _) Hrest)
        as (d' & ns' & Hd & -> & Hl').
      exists d', ns'. repeat split; [econstructor; eassumption | assumption].
    + assert (d1 = d) by (destruct Hd1 as (e & _ & _ & H); exact H). subst d1.
      destruct (IH stmts Hps Hk' _ _ _ _ Hl Hrest) as (d' & ns' & Hd & -> & Hl').
      exists d', ns'. repeat split; [econstructor; eassumption | assumption].
Qed.

Lemma fatal_keeps_steps st d0 before command after stmts rans w2 e w3 :
  lookup db_path (fs_nodes (world st)) = Some (DbFile d0) ->
  migration_commands = before ++ command :: after ->
  map parse before = map Some stmts ->
  Forall (fun s => kind_of s = Schema) stmts ->
  steps_ok tt before (live (fs_cwd (world st)) (fs_nodes (world st)) d0 false) rans w2 ->
  cursor_execute tt command w2 = (inl e, w3) ->
  benign e = false ->
  exists dk st' t,
    db_steps stmts d0 rans dk /\
    migrate_database st = (Return false, st', t) /\
    lookup db_path (fs_nodes (world st')) = Some (DbFile dk).
Proof.
  intros Hl Hsplit Hp Hk Hs He Hf.
  assert (Hsp : Forall splits before).
  { pose proof migration_commands_split as H. rewrite Hsplit in H.
    now apply Forall_app in H. }
  destruct (schema_steps_file _ _ _ Hp Hk _ _ _ _ Hl Hs) as (dk & nsk & Hd & -> & Hlk).
  cbn [cursor_execute platform] in He.
  pose proof (execute_failure_keeps _ _ _ _ He) as ->.
  destruct (run_steps_fatal tt before _ rans _ Hs Hsp command after e _ 1 (Some tt) He Hf)
    as [line E].
  exists dk. rewrite migrate_database_eq.
  cbn [os_path_exists sqlite3_connect platform]. unfold exists_, connect. rewrite Hl.
  rewrite migrate_with_eq, Hsplit. unfold live in E. rewrite E.
  eexists. eexists. repeat split; [exact Hd | exact Hlk].
Qed.

(** X4.  A failed run is not undone.  Let the first [k] steps ([k] at most
    seven, so that they are the steps that change the schema) be executed or
    skipped, and let the next one raise a fatal error.  Then
    [migrate_database] returns [False], and [workbot.db] holds the database
    those [k] steps have made: the columns and indexes added before the
    failure stay. *)
Theorem earlier_steps_persist st d0 k rans w2 e w3 :
  lookup db_path (fs_nodes (world st)) = Some (DbFile d0) ->
  k <= 7 ->
  steps_ok tt (firstn k migration_commands)
    (live (fs_cwd (world st)) (fs_nodes (world st)) d0 false) rans w2 ->
  cursor_execute tt (nth k migration_commands "") w2 = (inl e, w3) ->
  benign e = false ->
  exists dk st' t,
    db_steps (firstn k migration_stmts) d0 rans dk /\
    migrate_database st = (Return false, st', t) /\
    lookup db_path (fs_nodes (world st')) = Some (DbFile dk).
Proof.
  intros Hl Hk Hs He Hf.
  apply (fatal_keeps_steps st d0 (firstn k migration_commands)
           (nth k migration_commands "") (skipn (S k) migration_commands)
           (firstn k migration_stmts) rans w2 e w3); try assumption;
    do 8 (destruct k as [|k]; [first [reflexivity | repeat constructor]|]); lia.
Qed.

(** ** The schema after a successful run *)


(** ** The other columns *)







End FurtherOnLite.

(** * The properties at work *)

Module Demo.

(** A deployment before the migration: Users has two columns and three
    rows, and there is another table. *)
Definition users : table :=
  mkTable "Users"
    [ mkColumn "Id" "INTEGER" true None 1 Binary;
      mkColumn "Username" "TEXT" true None 0 Binary ]
    [ [VInt 1; VText "alice"]; [VInt 2; VText "bob"]; [VInt 3; VText "carol"] ].

Definition chats : table :=
  mkTable "Chats" [ mkColumn "Title" "TEXT" false None 0 Binary ] [ [VText "hello"] ].

Definition fresh : fsys :=
  mkFsys "/srv/workbot"
    [ ("app.py", NotADatabase); ("workbot.db", DbFile (mkDatabase [chats; users] [] [])) ]
    None.

(** The same, where AuthenticationMethod exists already, in lower case and
    with values to backfill. *)
Definition legacy_users : table :=
  mkTable "Users"
    [ mkColumn "Username" "TEXT" true None 0 Binary;
      mkColumn "authenticationmethod" "TEXT" false None 0 Binary ]
    [ [VText "alice"; VText ""]; [VText "bob"; VNull]; [VText "carol"; VText "Ldap"] ].

Definition legacy_db : database := mkDatabase [legacy_users] [] [].

Definition legacy : fsys := mkFsys "/srv/workbot" [ ("workbot.db", DbFile legacy_db) ] None.

(** A database in which a table has the name of the first index. *)
Definition clash : fsys :=
  mkFsys "/srv/workbot"
    [ ("workbot.db",
       DbFile (mkDatabase [users; mkTable "ix_users_externalid" [] []] [] [])) ]
    None.

(** No [workbot.db], and a directory of that name. *)
Definition empty_dir : fsys := mkFsys "/tmp" [ ("notes.txt", NotADatabase) ] None.

Definition blocked : fsys := mkFsys "/srv/workbot" [ ("workbot.db", Directory) ] None.

Definition start (w : fsys) : state fsys unit := mkState w None.

Definition after (w : fsys) : state fsys unit := snd (fst (migrate_database (start w))).

Definition trace_of (w : fsys) : trace := snd (migrate_database (start w)).














Example fresh_migrates : fst (fst (migrate_database (start fresh))) = Return true.
Proof. reflexivity. Qed.

Example fresh_users_after :
  option_map tbl_rows
    (match lookup db_path (fs_nodes (world (after fresh))) with
     | Some (DbFile d) => find_table "Users" (db_tables d)
     | _ => None
     end)
  = Some [ [VInt 1; VText "alice"; VNull; VNull; VNull; VText "Local"];
           [VInt 2; VText "bob"; VNull; VNull; VNull; VText "Local"];
           [VInt 3; VText "carol"; VNull; VNull; VNull; VText "Local"] ].
Proof. reflexivity. Qed.

Example answer_yes_runs :
  calls (snd (main "  YES " (start empty_dir)))
  = [CGetcwd; CListdir "."; CExists "workbot.db"].
Proof. reflexivity. Qed.

Example answer_empty_cancels :
  stdout (snd (main "" (start fresh)))
  = [ "WorkBot Database Migration Script";
      "========================================";
      "This script will add Identity Server fields to the Users table.";
      "";
      "Current directory: /srv/workbot";
      "Found database files: workbot.db";
      "";
      "Do you want to proceed with the migration? (y/N): ";
      "Migration cancelled." ].
Proof. reflexivity. Qed.

Lemma missing_file_witness :
  os_path_exists db_path (world (start empty_dir)) = false /\
  exists st' t,
    migrate_database (start empty_dir) = (Return false, st', t) /\
    world st' = world (start empty_dir) /\
    calls t = [CExists db_path] /\
    stdout t = ["Error: Database file 'workbot.db' not found!";
                "Make sure you're running this script from your project directory."].
Proof.
  split; [reflexivity | apply missing_file_returns_false; reflexivity].
Defined.

Lemma connect_failure_witness :
  migrate_database (start blocked)
  = (Raise unbound_conn, mkState blocked None,
     [Call (CExists db_path); Call (CConnect db_path false);
      Print "Database error: unable to open database file"]).
Proof.
  apply (connect_failure_escapes (start blocked) (op_error "unable to open database file"));
    reflexivity.
Defined.

(** The world after executing statements one after the other on the open
    connection. *)
Definition run_world (commands : list string) (w : fsys) : fsys :=
  fold_left (fun w command => snd (execute tt command w)) commands w.

(** Every one of the statements is executed, none raises. *)
Fixpoint executes (commands : list string) (w : fsys) : bool :=
  match commands with
  | [] => true
  | command :: rest =>
      match fst (execute tt command w) with
      | inr _ => executes rest (snd (execute tt command w))
      | inl _ => false
      end
  end.

Lemma executes_steps commands : forall w,
  executes commands w = true ->
  steps_ok tt commands w (map (fun _ => true) commands) (run_world commands w).
Proof.
  induction commands as [|command rest IH]; intros w H; cbn [map].
  - apply steps_done.
  - cbn [executes] in H. unfold run_world. cbn [fold_left]. fold (run_world rest).
    destruct (execute tt command w) as [[e|rows] w1] eqn:E; cbn [fst snd] in *;
      [discriminate|].
    eapply steps_next; [|apply IH; exact H].
    apply (step_executed _ _ _ rows). exact E.
Qed.

Definition clash_connected : fsys := snd (connect db_path clash).

Definition clash_failed : fsys := run_world (firstn 5 migration_commands) clash_connected.

Lemma fatal_step_witness :
  cursor_execute tt (nth 4 migration_commands "")
    (run_world (firstn 4 migration_commands) clash_connected)
  = (inl (op_error "there is already a table named IX_Users_ExternalId"), clash_failed) /\
  exists st' t,
    migrate_database (start clash) = (Return false, st', t) /\
    executed (calls t) = firstn 4 migration_commands ++ [nth 4 migration_commands ""] /\
    (forall ok, ~ In (CCommit ok) (calls t)) /\
    world st' = conn_close tt clash_failed.
Proof.
  split; [reflexivity|].
  apply (fatal_step_stops_the_run (start clash) tt clash_connected
           (firstn 4 migration_commands) (nth 4 migration_commands "")
           (skipn 5 migration_commands) [true; true; true; true]
           (run_world (firstn 4 migration_commands) clash_connected)
           (op_error "there is already a table named IX_Users_ExternalId")
           clash_failed).
  - reflexivity.
  - reflexivity.
  - reflexivity.
  - apply (executes_steps (firstn 4 migration_commands) clash_connected).
    vm_compute. reflexivity.
  - reflexivity.
  - reflexivity.
Defined.

Lemma verification_witness :
  migrate_database (start fresh) = (Return true, after fresh, trace_of fresh) /\
  exists w1 rans w2 w3 t4,
    sqlite3_connect db_path (world (start fresh)) = (inr tt, w1) /\
    steps_ok tt migration_commands w1 rans w2 /\
    conn_commit tt w2 = (inr tt, w3) /\
    fs_nodes (world (after fresh)) = fs_nodes w3 /\
    fs_cwd (world (after fresh)) = fs_cwd w3 /\
    trace_of fresh = success_trace rans t4 /\
    Forall (fun c => exists sql ok, c = CExecute sql ok /\ In sql verification_queries)
           (calls t4).
Proof.
  split; [reflexivity | apply verification_only_reads; reflexivity].
Defined.







Example legacy_rows_after :
  option_map tbl_rows
    (match lookup db_path (fs_nodes (world (after legacy))) with
     | Some (DbFile d) => find_table "Users" (db_tables d)
     | _ => None
     end)
  = Some [ [VText "alice"; VText "Local"; VNull; VNull; VNull];
           [VText "bob"; VText "Local"; VNull; VNull; VNull];
           [VText "carol"; VText "Ldap"; VNull; VNull; VNull] ].
Proof. reflexivity. Qed.

End Demo.

(** * The further properties at work *)

Module More.

Import Demo.

(** A Users table without a Username column, with one row. *)
Definition nameless : fsys :=
  mkFsys "/srv/workbot"
    [ ("workbot.db",
       DbFile (mkDatabase
                 [mkTable "Users" [mkColumn "Id" "INTEGER" true None 1 Binary] [[VInt 7]]]
                 [] [])) ]
    None.

Definition nameless_connected : fsys := snd (connect db_path nameless).

Definition nameless_migrated : fsys := run_world migration_commands nameless_connected.

Definition nameless_committed : fsys := snd (commit tt nameless_migrated).

Definition nameless_verified : completion unit * state fsys unit * trace :=
  verify tt (mkState nameless_committed (Some tt)).

Lemma committed_then_false_witness :
  exists st' t,
    migrate_database (start nameless) = (Return false, st', t) /\
    world st' = conn_close tt (world (snd (fst nameless_verified))) /\
    In (CCommit true) (calls t) /\
    In "Database error: no such column: Username" (stdout t).
Proof.
  apply (committed_then_false (start nameless) tt nameless_connected
           [true; true; true; true; true; true; true; true]
           nameless_migrated nameless_committed
           (op_error "no such column: Username")
           (snd (fst nameless_verified)) (snd nameless_verified)).
  - reflexivity.
  - reflexivity.
  - apply (executes_steps migration_commands nameless_connected).
    vm_compute. reflexivity.
  - reflexivity.
  - reflexivity.
Defined.

Example nameless_is_migrated :
  option_map (fun t => (map col_name (tbl_cols t), tbl_rows t))
    (match lookup db_path (fs_nodes (world (after nameless))) with
     | Some (DbFile d) => find_table "Users" (db_tables d)
     | _ => None
     end)
  = Some ([ "Id"; "DisplayName"; "ExternalId"; "EmployeeId"; "AuthenticationMethod" ],
          [ [VInt 7; VNull; VNull; VNull; VText "Local"] ]).
Proof. reflexivity. Qed.

Lemma earlier_steps_witness :
  exists dk st' t,
    db_steps (firstn 4 migration_stmts)
      (mkDatabase [users; mkTable "ix_users_externalid" [] []] [] [])
      [true; true; true; true] dk /\
    migrate_database (start clash) = (Return false, st', t) /\
    lookup db_path (fs_nodes (world st')) = Some (DbFile dk).
Proof.
  apply (earlier_steps_persist (start clash)
           (mkDatabase [users; mkTable "ix_users_externalid" [] []] [] [])
           4 [true; true; true; true]
           (run_world (firstn 4 migration_commands) clash_connected)
           (op_error "there is already a table named IX_Users_ExternalId")
           clash_failed).
  - reflexivity.
  - lia.
  - apply (executes_steps (firstn 4 migration_commands) clash_connected).
    vm_compute. reflexivity.
  - reflexivity.
  - reflexivity.
Defined.

Example clash_keeps_columns :
  option_map (fun t => map col_name (tbl_cols t))
    (match lookup db_path (fs_nodes (world (after clash))) with
     | Some (DbFile d) => find_table "Users" (db_tables d)
     | _ => None
     end)
  = Some [ "Id"; "Username"; "DisplayName"; "ExternalId"; "EmployeeId";
           "AuthenticationMethod" ].
Proof. reflexivity. Qed.



Lemma returns_true_witness :
  migrate_database (start fresh) = (Return true, after fresh, trace_of fresh) /\
  exists c w1 rans w2 w3 st4 t4,
    success (start fresh) c w1 rans w2 w3 st4 t4 /\
    world (after fresh) = conn_close c (world st4).
Proof.
  split; [reflexivity|].
  apply (returns_true_only_when (start fresh) (after fresh) (trace_of fresh)). reflexivity.
Defined.

Lemma main_stops_witness :
  main "y" (start blocked)
  = (Raise unbound_conn, mkState blocked None,
     banner_trace blocked
       ++ [Call (CExists db_path); Call (CConnect db_path false);
           Print "Database error: unable to open database file"]).
Proof.
  apply (main_stops_on_connect_failure "y" (start blocked)
           (op_error "unable to open database file") blocked); reflexivity.
Defined.

Lemma commit_witness :
  In (CCommit true) (calls (snd (migrate_database (start fresh)))) /\
  exists c w1 rans w2,
    sqlite3_connect db_path (world (start fresh)) = (inr c, w1) /\
    steps_ok c migration_commands w1 rans w2.
Proof.
  assert (Hin : In (CCommit true) (calls (snd (migrate_database (start fresh))))).
  { assert (E : calls (snd (migrate_database (start fresh)))
                = CExists db_path :: CConnect db_path true
                    :: map (fun sql => CExecute sql true) migration_commands
                    ++ CCommit true
                    :: map (fun sql => CExecute sql true) verification_queries
                    ++ [CClose]) by reflexivity.
    rewrite E. right. right. apply in_or_app. right. now left. }
  split; [exact Hin|].
  exact (commit_only_after_all_steps (start fresh) true Hin).
Defined.

End More.
